(** * The [sst] command line: dispatch, stage resolution and handlers

    A shallow embedding of [cmd/sst/main.go].  Strings are Rocq strings
    (byte sequences), Go slices are lists, the map of parsed flags and the
    secrets map are finite maps, and calls into the packages the file
    imports ([project], [provider], [server], [os/exec], ...) are recorded
    in a trace, their results being supplied by an explicit environment. *)

From Stdlib Require Import ZArith List String Ascii Bool Lia.
From stdpp Require Import base option list strings gmap.
Import ListNotations.

Set Warnings "-register-all".

Local Open Scope string_scope.
Local Open Scope list_scope.

(* ===================================================================== *)
(** * Errors *)
(* ===================================================================== *)

Module Errors.

(** Go [error] values that are not nil.  A nil-able [error] is an
    [option error].  [ReadableError cause msg] is the value built by
    [util.NewReadableError(cause, msg)]; [ErrServerAlreadyRunning] is the
    sentinel [server.ErrServerAlreadyRunning]; every other error of the
    imported packages is an [OtherError] carrying its text. *)
Inductive error : Type :=
| ReadableError (cause : option error) (message : string)
| ErrServerAlreadyRunning
| OtherError (text : string).

(** [err == server.ErrServerAlreadyRunning] *)
Definition isErrServerAlreadyRunning (e : error) : bool :=
  match e with
  | ErrServerAlreadyRunning => true
  | _ => false
  end.

(** The type assertion of [main] to a readable error: its message. *)
Definition asReadable (e : error) : option string :=
  match e with
  | ReadableError _ msg => Some msg
  | _ => None
  end.

(** [var ErrHelp = util.NewReadableError(nil, "")] *)
Definition ErrHelp : error := ReadableError None EmptyString.

End Errors.
Export Errors.

(* ===================================================================== *)
(** * Command registry *)
(* ===================================================================== *)

Module Registry.

Record Argument : Type := mkArgument {
  arg_Name : string;
  arg_Required : bool
}.

Record Flag : Type := mkFlag {
  flag_Name : string;
  flag_Type : string
}.

(** The [Run] fields of the tree, one tag per handler. *)
Inductive Handler : Type :=
| CmdInit | CmdDev | RunDeploy | RunAdd | RunInstall
| RunSecretSet | RunSecretRemove | RunSecretList
| RunShell | RunRemove | RunUnlock | RunVersion | RunUpgrade
| RunTelemetryEnable | RunTelemetryDisable
| RunImportUnstable | RunServer | RunIntrospect | RunRefresh
| RunStateEdit.

(** [type Command struct]; descriptions and examples only feed the help
    text and are left out. *)
Inductive Command : Type := mkCommand {
  Name : string;
  Hidden : bool;
  Args : list Argument;
  Flags : list Flag;
  Children : list Command;
  Run : option Handler
}.

(** [type CommandPath []Command] *)
Definition CommandPath : Type := list Command.

Definition leaf (name : string) (hidden : bool) (args : list Argument)
    (flags : list Flag) (h : Handler) : Command :=
  mkCommand name hidden args flags [] (Some h).

Definition group (name : string) (hidden : bool) (children : list Command)
    : Command :=
  mkCommand name hidden [] [] children None.

Definition secretSetCommand : Command :=
  leaf "set" false [mkArgument "name" true; mkArgument "value" true] []
    RunSecretSet.

Definition secretCommand : Command :=
  group "secret" false
    [ secretSetCommand;
      leaf "remove" false [mkArgument "name" true] [] RunSecretRemove;
      leaf "list" false [] [] RunSecretList ].

Definition telemetryCommand : Command :=
  group "telemetry" false
    [ leaf "enable" false [] [] RunTelemetryEnable;
      leaf "disable" false [] [] RunTelemetryDisable ].

Definition stateCommand : Command :=
  group "state" true [ leaf "edit" false [] [] RunStateEdit ].

(** [var Root = Command{...}] *)
Definition Root : Command :=
  mkCommand "sst" false []
    [ mkFlag "stage" "string"; mkFlag "verbose" "bool"; mkFlag "help" "bool" ]
    [ leaf "init" false [] [] CmdInit;
      leaf "dev" false [mkArgument "command" false] [] CmdDev;
      leaf "deploy" false [] [] RunDeploy;
      leaf "add" false [mkArgument "provider" true] [] RunAdd;
      leaf "install" false [] [] RunInstall;
      secretCommand;
      leaf "shell" false [mkArgument "command" false] [] RunShell;
      leaf "remove" false [] [] RunRemove;
      leaf "unlock" false [] [] RunUnlock;
      leaf "version" false [] [] RunVersion;
      leaf "upgrade" false [mkArgument "version" false] [] RunUpgrade;
      telemetryCommand;
      leaf "import-unstable" true
        [mkArgument "type" true; mkArgument "name" true; mkArgument "id" true]
        [mkFlag "parent" "string"] RunImportUnstable;
      leaf "server" true [] [] RunServer;
      leaf "introspect" true [] [] RunIntrospect;
      leaf "refresh" true [] [] RunRefresh;
      stateCommand ]
    None.

End Registry.
Export Registry.

(* ===================================================================== *)
(** * Flag parsing *)
(* ===================================================================== *)

Module Pflag.

(** The value a registered flag points to: [flag.String] gives a
    [*string], [flag.Bool] a [*bool]. *)
Inductive FlagValue : Type :=
| StringValue (s : string)
| BoolValue (b : bool).

Definition sameKind (a b : FlagValue) : bool :=
  match a, b with
  | StringValue _, StringValue _ => true
  | BoolValue _, BoolValue _ => true
  | _, _ => false
  end.

(** [strconv.ParseBool], used by the bool flag's [Set]. *)
Definition ParseBool (s : string) : option bool :=
  if existsb (String.eqb s) ["1"; "t"; "T"; "TRUE"; "true"; "True"]
  then Some true
  else if existsb (String.eqb s) ["0"; "f"; "F"; "FALSE"; "false"; "False"]
  then Some false
  else None.

(** [strings.SplitN(name, "=", 2)]: the text before the first [=], and
    the text after it when there is one. *)
Fixpoint splitEq (s : string) : string * option string :=
  match s with
  | EmptyString => (EmptyString, None)
  | String c rest =>
      if Ascii.eqb c "="%char then (EmptyString, Some rest)
      else let '(name, value) := splitEq rest in (String c name, value)
  end.

(** [flag.Value.Set(value)] on a flag whose current value is [cur]. *)
Definition setValue (cur : FlagValue) (value : string) : option FlagValue :=
  match cur with
  | StringValue _ => Some (StringValue value)
  | BoolValue _ => BoolValue <$> ParseBool value
  end.

(** The shape of one command-line token, as the parser tells them
    apart: an argument (no leading dash, or a lone dash), the terminator
    [--], a long flag [--body] or a shorthand [-c...]. *)
Inductive Token : Type :=
| TokArg
| TokTerminator
| TokLong (body : string)
| TokShort (c : ascii).

Definition classify (s : string) : Token :=
  match s with
  | String c1 (String c2 rest) =>
      if Ascii.eqb c1 "-"%char then
        if Ascii.eqb c2 "-"%char then
          match rest with
          | EmptyString => TokTerminator
          | _ => TokLong rest
          end
        else TokShort c2
      else TokArg
  | _ => TokArg
  end.

(** What a long flag does to the parse. *)
Inductive LongStep : Type :=
| LongSet (name : string) (new : FlagValue)
| LongTakeNext (name : string)
| LongFail (e : error).

(** The long flag [s = --body] against the registered flags: with a
    value after [=] the flag is set to it, a bool flag without one is
    set to true, a string flag without one takes the next token. *)
Definition parseLongArg (fs : gmap string FlagValue) (s body : string)
    : LongStep :=
  match body with
  | EmptyString => LongFail (OtherError ("bad flag syntax: " ++ s))
  | String c _ =>
      if Ascii.eqb c "-"%char || Ascii.eqb c "="%char
      then LongFail (OtherError ("bad flag syntax: " ++ s))
      else
        let '(name, value) := splitEq body in
        match fs !! name with
        | None =>
            if String.eqb name "help"
            then LongFail (OtherError "pflag: help requested")
            else LongFail (OtherError ("unknown flag: --" ++ name))
        | Some cur =>
            match value, cur with
            | Some v, _ =>
                match setValue cur v with
                | Some new => LongSet name new
                | None => LongFail (OtherError ("invalid argument for --" ++ name))
                end
            | None, BoolValue _ => LongSet name (BoolValue true)
            | None, StringValue _ => LongTakeNext name
            end
        end
  end.

(** Modelled from the spec: the flag library [github.com/spf13/pflag]
    (imported as [flag]) is not part of the source tree.  The spec has
    flags "parsed independent of position (any --name[=value] token,
    anywhere, is consumed into the flag map) using the standard
    double-dash convention", unknown flags being a parse failure.  This
    is the library's parse loop for a flag set without shorthands: an
    argument token is kept, [--] ends flag parsing and keeps the rest, a
    long flag is set (from [=value], from the next token, or to true for
    a bool flag), and anything else stops the parse with an error.  The
    result is the flag values, [flag.Args()] and the parse error. *)
Fixpoint parseArgs (fs : gmap string FlagValue) (out : list string)
    (args : list string)
    : gmap string FlagValue * list string * option error :=
  match args with
  | [] => (fs, out, None)
  | s :: rest =>
      match classify s with
      | TokArg => parseArgs fs (out ++ [s]) rest
      | TokTerminator => (fs, out ++ rest, None)
      | TokShort c =>
          if Ascii.eqb c "h"%char
          then (fs, out, Some (OtherError "pflag: help requested"))
          else (fs, out, Some (OtherError ("unknown shorthand flag in " ++ s)))
      | TokLong body =>
          match parseLongArg fs s body with
          | LongSet name new => parseArgs (<[name := new]> fs) out rest
          | LongTakeNext name =>
              match rest with
              | v :: rest' => parseArgs (<[name := StringValue v]> fs) out rest'
              | [] => (fs, out, Some (OtherError ("flag needs an argument: " ++ s)))
              end
          | LongFail e => (fs, out, Some e)
          end
      end
  end.

(** [flag.CommandLine.Parse(os.Args[1:])] *)
Definition Parse (fs : gmap string FlagValue) (osArgs : list string)
    : gmap string FlagValue * list string * option error :=
  parseArgs fs [] osArgs.

End Pflag.
Export Pflag.

(* ===================================================================== *)
(** * Dispatcher *)
(* ===================================================================== *)

Module Dispatcher.

(** [type Cli struct]; the context and its cancel function are left out.
    [flags] maps a flag name to what its pointer holds after the parse. *)
Record Cli : Type := mkCli {
  flags : gmap string FlagValue;
  arguments : list string;
  path : CommandPath
}.

(** One flag of [registerFlags]: the two [if]s on [f.Type]. *)
Definition registerFlag (parsed : gmap string FlagValue) (f : Flag)
    : gmap string FlagValue :=
  let parsed :=
    if String.eqb (flag_Type f) "string"
    then <[flag_Name f := StringValue ""]> parsed else parsed in
  if String.eqb (flag_Type f) "bool"
  then <[flag_Name f := BoolValue false]> parsed else parsed.

(** [func (c *Command) registerFlags(parsed map[string]interface{})] *)
Fixpoint registerFlags (c : Command) (parsed : gmap string FlagValue)
    : gmap string FlagValue :=
  match c with
  | mkCommand _ _ _ fl ch _ =>
      fold_left (fun p child => registerFlags child p) ch
        (fold_left registerFlag fl parsed)
  end.

(** The names [registerFlags] registers, in order; the flag library
    panics when a name is registered twice. *)
Fixpoint flagNames (c : Command) : list string :=
  match c with
  | mkCommand _ _ _ fl ch _ => map flag_Name fl ++ flat_map flagNames ch
  end.

(** [func (c *Cli) String(name string) string]; [None] is the panic of
    the type assertion on a flag that is not a string flag. *)
Definition Cli_String (c : Cli) (name : string) : option string :=
  match flags c !! name with
  | Some (StringValue s) => Some s
  | Some (BoolValue _) => None
  | None => Some ""
  end.

(** [func (c *Cli) Bool(name string) bool]; [None] is the panic of the
    type assertion on a flag that is not a bool flag. *)
Definition Cli_Bool (c : Cli) (name : string) : option bool :=
  match flags c !! name with
  | Some (BoolValue b) => Some b
  | Some (StringValue _) => None
  | None => Some false
  end.

(** [func (c *Cli) Positional(index int) string]; [None] is the
    index-out-of-range panic of [c.arguments[index]], which a negative
    index reaches. *)
Definition Cli_Positional (c : Cli) (index : Z) : option string :=
  if (index >=? Z.of_nat (length (arguments c)))%Z then Some ""
  else if (index <? 0)%Z then None
  else arguments c !! Z.to_nat index.

(** [cmds[len(cmds)-1]]; the path always starts with the root, the
    default is never used. *)
Definition lastCommand (cmds : CommandPath) : Command :=
  List.last cmds Root.

(** The inner loop of [run]: the first child whose name is the token. *)
Fixpoint findChild (children : list Command) (arg : string)
    : option Command :=
  match children with
  | [] => None
  | c :: rest => if String.eqb (Name c) arg then Some c else findChild rest arg
  end.

(** The loop of [run] over [flag.Args()]: the path and the positionals
    it leaves.  [positionals] starts empty and is assigned only in the
    branch of a command without children. *)
Fixpoint walk (cmds : CommandPath) (args : list string)
    : CommandPath * list string :=
  match args with
  | [] => (cmds, [])
  | arg :: rest =>
      match Children (lastCommand cmds) with
      | [] => (cmds, args)
      | children =>
          match findChild children arg with
          | None => (cmds, [])
          | Some cmd => walk (cmds ++ [cmd]) rest
          end
      end
  end.

(** What [run] ends in. *)
Inductive Outcome : Type :=
| HelpRender (p : CommandPath)
| HandlerCall (h : Handler) (cli : Cli)
| SetupError (e : error)
| Panicked.

(** [func (c *Cli) PrintHelp() error]: renders the help of the path and
    returns [ErrHelp]. *)
Definition Cli_PrintHelp (c : Cli) : Outcome := HelpRender (path c).

(** The first-run installation steps of [run], supplied from outside. *)
Record Setup : Type := mkSetup {
  NeedsPulumi : bool;
  InstallPulumi : option error;
  NeedsBun : bool;
  InstallBun : option error
}.

(** [run] up to the construction of [cli], with the parse error. *)
Definition resolve (osArgs : list string) : Cli * option error :=
  let parsedFlags := registerFlags Root ∅ in
  let '(fs, fargs, cliParseError) := Parse parsedFlags osArgs in
  let '(cmds, positionals) := walk [Root] fargs in
  (mkCli fs positionals cmds, cliParseError).

(** The [required] counter of [run]. *)
Definition requiredCount (active : Command) : nat :=
  length (List.filter arg_Required (Args active)).

(** [active.Run == nil] *)
Definition isNil (r : option Handler) : bool :=
  match r with
  | None => true
  | Some _ => false
  end.

(** The last statement of [run]; calling a nil [Run] would panic, which
    the test before it excludes. *)
Definition dispatch (cli : Cli) : Outcome :=
  let active := lastCommand (path cli) in
  let required := requiredCount active in
  match Cli_Bool cli "help" with
  | None => Panicked
  | Some help =>
      if help || isNil (Run active) || (length (arguments cli) <? required)%nat
      then Cli_PrintHelp cli
      else
        match Run active with
        | Some h => HandlerCall h cli
        | None => Panicked
        end
  end.

(** The two installation steps of [run]: the error of the first that
    fails. *)
Definition setup (g : Setup) : option error :=
  match (if NeedsPulumi g then InstallPulumi g else None) with
  | Some e => Some e
  | None => if NeedsBun g then InstallBun g else None
  end.

(** [func configureLog(cli *Cli)]: it reads the [verbose] flag to pick
    the log writers (the log file, and standard error when verbose);
    [None] is the panic of that read. *)
Definition configureLog (cli : Cli) : option bool := Cli_Bool cli "verbose".

(** [func run() error] *)
Definition run (g : Setup) (osArgs : list string) : Outcome :=
  let '(cli, cliParseError) := resolve osArgs in
  match configureLog cli with
  | None => Panicked
  | Some _ =>
      match cliParseError with
      | Some _ => Cli_PrintHelp cli
      | None =>
          match setup g with
          | Some e => SetupError e
          | None => dispatch cli
          end
      end
  end.

End Dispatcher.
Export Dispatcher.

(* ===================================================================== *)
(** * Handler bodies: calls, early returns and deferred calls *)
(* ===================================================================== *)

Module GoFn.

(** The calls a handler makes into the imported packages. *)
Inductive Call : Type :=
| CallInitProject
| CallCleanup
| CallLock
| CallUnlock
| CallPullState
| CallPushState
| CallGetenv (name : string)
| CallEditorStart (editor file : string)
| CallEditorWait
| CallGetSecrets
| CallPutSecrets (secrets : gmap string string)
| CallServerNew
| CallServerStart
| CallUiSuccess (msg : string).

(** The state of one running function: the calls made so far, the stack
    of deferred calls (most recent first) and the secrets the backend
    stores for the app and stage. *)
Record Frame : Type := mkFrame {
  calls : list Call;
  deferred : list Call;
  backend : gmap string string
}.

(** A statement either falls through with a value or returns from the
    function with its error result. *)
Inductive Flow (A : Type) : Type :=
| Next (a : A)
| Return (e : option error).
Arguments Next {A} a.
Arguments Return {A} e.

Definition Fn (A : Type) : Type := Frame -> Frame * Flow A.

#[export] Instance Fn_ret : MRet Fn := fun A a fr => (fr, Next a).

#[export] Instance Fn_bind : MBind Fn := fun A B k m fr =>
  match m fr with
  | (fr', Next a) => k a fr'
  | (fr', Return e) => (fr', Return e)
  end.

(** [return e] *)
Definition return_ {A : Type} (e : option error) : Fn A :=
  fun fr => (fr, Return e).

(** A call whose result the environment supplies. *)
Definition call {A : Type} (c : Call) (result : A) : Fn A :=
  fun fr => (mkFrame (calls fr ++ [c]) (deferred fr) (backend fr), Next result).

(** [defer c()] *)
Definition defer (c : Call) : Fn unit :=
  fun fr => (mkFrame (calls fr) (c :: deferred fr) (backend fr), Next tt).

(** Running a function body: when it returns, the deferred calls run,
    last deferred first, and their results are dropped. *)
Definition execFn (body : Fn (option error)) (store : gmap string string)
    : list Call * gmap string string * option error :=
  let '(fr, flow) := body (mkFrame [] [] store) in
  (calls fr ++ deferred fr, backend fr,
   match flow with Next e => e | Return e => e end).

End GoFn.
Export GoFn.

(* ===================================================================== *)
(** * Handlers *)
(* ===================================================================== *)

Module Handlers.

(** [p.App()] of an initialised project. *)
Record App : Type := mkApp {
  app_Name : string;
  app_Stage : string
}.

(** What the collaborators answer during one handler run. *)
Record World : Type := mkWorld {
  initProject_result : error + App;
  Lock_result : option error;
  PullState_result : error + string;
  PushState_result : option error;
  EDITOR : string;
  editorStart_result : option error;
  editorWait_result : option error;
  GetSecrets_error : option error;
  PutSecrets_error : option error;
  serverNew_error : option error;
  serverStart_error : option error
}.

Definition quote : string := String "034"%char EmptyString.

(** Modelled from the spec: [provider.GetSecrets] is not part of the
    source tree.  The spec has "getSecrets(app, stage) ->
    map<string,string>" as a get "on a key-value map scoped to
    app+stage": it returns the stored map, unless the backend fails. *)
Definition GetSecrets (w : World) : Fn (error + gmap string string) :=
  fun fr =>
    call CallGetSecrets
      (match GetSecrets_error w with
       | Some err => inl err
       | None => inr (backend fr)
       end) fr.

(** Modelled from the spec: [provider.PutSecrets] is not part of the
    source tree.  The spec has "putSecrets(app, stage, map)" as the put
    on that map, and "all operations are assumed to be atomic at the
    backend": a put that succeeds replaces the stored map, a put that
    fails stores nothing. *)
Definition PutSecrets (w : World) (secrets : gmap string string)
    : Fn (option error) :=
  fun fr =>
    match PutSecrets_error w with
    | Some err =>
        (mkFrame (calls fr ++ [CallPutSecrets secrets]) (deferred fr) (backend fr),
         Next (Some err))
    | None =>
        (mkFrame (calls fr ++ [CallPutSecrets secrets]) (deferred fr) secrets,
         Next None)
    end.

(** The [Run] of [state edit]. *)
Definition stateEditRun (w : World) : Fn (option error) :=
  r ← call CallInitProject (initProject_result w);
  match r with
  | inl err => return_ (Some err)
  | inr _ =>
      defer CallCleanup;;
      err ← call CallLock (Lock_result w);
      match err with
      | Some err => return_ (Some (ReadableError (Some err) "Could not lock state"))
      | None =>
          defer CallUnlock;;
          r ← call CallPullState (PullState_result w);
          match r with
          | inl err =>
              return_ (Some (ReadableError (Some err) "Could not pull state"))
          | inr file =>
              editor ← call (CallGetenv "EDITOR") (EDITOR w);
              let editor := if String.eqb editor "" then "vim" else editor in
              err ← call (CallEditorStart editor file) (editorStart_result w);
              match err with
              | Some err =>
                  return_ (Some (ReadableError (Some err) "Could not start editor"))
              | None =>
                  err ← call CallEditorWait (editorWait_result w);
                  match err with
                  | Some err =>
                      return_ (Some (ReadableError (Some err) "Editor exited with error"))
                  | None =>
                      err ← call CallPushState (PushState_result w);
                      return_ err
                  end
              end
          end
      end
  end.

(** The [Run] of [secret remove]. *)
Definition secretRemoveRun (w : World) (cli : Cli) : Fn (option error) :=
  let key := default "" (Cli_Positional cli 0) in
  r ← call CallInitProject (initProject_result w);
  match r with
  | inl err => return_ (Some err)
  | inr app =>
      defer CallCleanup;;
      r ← GetSecrets w;
      match r with
      | inl err => return_ (Some (ReadableError (Some err) "Could not get secrets"))
      | inr secrets =>
          match secrets !! key with
          | None =>
              return_ (Some (ReadableError None
                ("Secret " ++ quote ++ key ++ quote
                 ++ " does not exist for stage " ++ quote ++ app_Stage app ++ quote)))
          | Some _ =>
              let secrets := delete key secrets in
              err ← PutSecrets w secrets;
              match err with
              | Some err =>
                  return_ (Some (ReadableError (Some err) "Could not set secret"))
              | None =>
                  call (CallUiSuccess
                    ("Removed " ++ quote ++ key ++ quote
                     ++ " for stage " ++ quote ++ app_Stage app ++ quote)) tt;;
                  return_ None
              end
          end
      end
  end.

(** The [Run] of [server]. *)
Definition serverRun (w : World) : Fn (option error) :=
  r ← call CallInitProject (initProject_result w);
  match r with
  | inl err => return_ (Some err)
  | inr _ =>
      defer CallCleanup;;
      err ← call CallServerNew (serverNew_error w);
      match err with
      | Some err => return_ (Some err)
      | None =>
          err ← call CallServerStart (serverStart_error w);
          match err with
          | Some err =>
              if isErrServerAlreadyRunning err
              then return_ (Some (ReadableError (Some err) "Server already running"))
              else return_ (Some err)
          | None => return_ None
          end
      end
  end.

End Handlers.
Export Handlers.

(* ===================================================================== *)
(** * Stage resolver *)
(* ===================================================================== *)

Module StageResolver.

(** One [fmt.Scanln(&stage)]: it either scans a token into [stage], or
    fails, possibly after it has stored something. *)
Inductive ScanResult : Type :=
| ScanOk (token : string)
| ScanErr (stored : option string).

(** The machine the resolver runs on: the personal-stage marker files
    (by project config path), whether they can be written, the result of
    [user.Current()] and what standard input will deliver. *)
Record Machine : Type := mkMachine {
  markers : gmap string string;
  markerWritable : bool;
  currentUser : option string;
  stdin : list ScanResult
}.

Inductive Event : Type :=
| EvLoadPersonalStage (cfgPath : string)
| EvGuessStage
| EvPrompt
| EvSetPersonalStage (cfgPath stage : string)
| EvLoadDotenv (file : string).

Inductive Result : Type :=
| Returned (stage : string) (err : option error)
| Blocked
| TypePanic.

(** Modelled from the spec: [project.LoadPersonalStage] is not part of
    the source tree.  It reads "a previously persisted personal-stage
    marker file next to the project config"; a missing marker reads as
    the empty string. *)
Definition LoadPersonalStage (m : Machine) (cfgPath : string) : string :=
  default "" (markers m !! cfgPath).

(** Modelled from the spec: [project.SetPersonalStage] is not part of
    the source tree.  The value "is persisted as the new personal-stage
    marker"; the write can fail. *)
Definition SetPersonalStage (m : Machine) (cfgPath stage : string)
    : Machine * option error :=
  if markerWritable m
  then (mkMachine (<[cfgPath := stage]> (markers m)) (markerWritable m)
          (currentUser m) (stdin m), None)
  else (m, Some (OtherError "could not write the stage file")).

(** The ASCII step of [strings.ToLower] on one byte: A-Z move to a-z,
    every other byte is kept. *)
Definition lowerByte (c : ascii) : ascii :=
  let n := nat_of_ascii c in
  if (65 <=? n)%nat && (n <=? 90)%nat then ascii_of_nat (n + 32) else c.

Fixpoint lowerBytes (s : string) : string :=
  match s with
  | EmptyString => EmptyString
  | String c rest => String (lowerByte c) (lowerBytes rest)
  end.

(** Whether every byte of the string is below [utf8.RuneSelf] (128). *)
Fixpoint isASCII (s : string) : bool :=
  match s with
  | EmptyString => true
  | String c rest => (nat_of_ascii c <? 128)%nat && isASCII rest
  end.

Section WithUnicode.

(** The lower-casing of a string that has a byte outside ASCII: Go
    decodes it as UTF-8 and maps every rune through the Unicode case
    tables ([strings.Map(unicode.ToLower, s)]).  The tables are not part
    of the program; the function is taken as it is. *)
Variable unicodeToLower : string -> string.

(** [strings.ToLower]: byte by byte on an ASCII string, through the
    Unicode tables otherwise. *)
Definition ToLower (s : string) : string :=
  if isASCII s then lowerBytes s else unicodeToLower s.

(** [func guessStage() string], on the result of [user.Current()]. *)
Definition guessStage (currentUser : option string) : string :=
  match currentUser with
  | None => ""
  | Some username =>
      let stage := ToLower username in
      if String.eqb stage "root" || String.eqb stage "admin"
         || String.eqb stage "prod" || String.eqb stage "dev"
         || String.eqb stage "production"
      then ""
      else stage
  end.

(** The [for] loop of [getStage]: the number of prompts printed, and the
    stage it breaks with together with the input left; [None] when the
    input ends before a stage was entered, where the loop never ends. *)
Fixpoint promptLoop (stage : string) (input : list ScanResult)
    : nat * option (string * list ScanResult) :=
  match input with
  | [] => (1%nat, None)
  | ScanErr stored :: rest =>
      let '(n, r) := promptLoop (default stage stored) rest in (S n, r)
  | ScanOk token :: rest =>
      if String.eqb token ""
      then let '(n, r) := promptLoop token rest in (S n, r)
      else (1%nat, Some (token, rest))
  end.

(** [func getStage(cli *Cli, cfgPath string) (string, error)] *)
Definition getStage (cli : Cli) (cfgPath : string) (m : Machine)
    : list Event * Machine * Result :=
  match Cli_String cli "stage" with
  | None => ([], m, TypePanic)
  | Some stage =>
      if String.eqb stage "" then
        let stage := LoadPersonalStage m cfgPath in
        if String.eqb stage "" then
          let stage := guessStage (currentUser m) in
          let '(prompts, r) :=
            if String.eqb stage "" then promptLoop stage (stdin m)
            else (0%nat, Some (stage, stdin m)) in
          let asked :=
            [EvLoadPersonalStage cfgPath; EvGuessStage] ++ repeat EvPrompt prompts in
          match r with
          | None =>
              (asked,
               mkMachine (markers m) (markerWritable m) (currentUser m) [],
               Blocked)
          | Some (stage, rest) =>
              let m := mkMachine (markers m) (markerWritable m) (currentUser m) rest in
              match SetPersonalStage m cfgPath stage with
              | (m, Some err) =>
                  (asked ++ [EvSetPersonalStage cfgPath stage], m,
                   Returned "" (Some err))
              | (m, None) =>
                  (asked ++ [EvSetPersonalStage cfgPath stage;
                             EvLoadDotenv (".env." ++ stage)], m,
                   Returned stage None)
              end
          end
        else
          ([EvLoadPersonalStage cfgPath; EvLoadDotenv (".env." ++ stage)], m,
           Returned stage None)
      else ([EvLoadDotenv (".env." ++ stage)], m, Returned stage None)
  end.

End WithUnicode.

(** A command line that gives [--stage] the value [stage]. *)
Definition cliWithStage (stage : string) : Cli :=
  mkCli (<["stage" := StringValue stage]> (registerFlags Root ∅)) [] [Root].

End StageResolver.
Export StageResolver.

(* ===================================================================== *)
(** * The process: [main] *)
(* ===================================================================== *)

Module Main.

(** What [main] emits besides running the command. *)
Inductive Output : Type :=
| Track (event : string)
| SlogError (e : error)
| UiError (msg : string).

Section WithTransformError.

(** [TransformError] is defined in another file of the package; it maps
    an error to the error that is reported. *)
Variable TransformError : error -> error.

(** [func main()], after [err := run()]: the output and the exit code.
    Returning from [main] is exit code 0. *)
Definition main (runResult : option error) : list Output * Z :=
  match runResult with
  | Some err =>
      let err := TransformError err in
      ([Track "cli.start"; Track "cli.error"; SlogError err]
       ++ match asReadable err with
          | Some msg => if String.eqb msg "" then [] else [UiError msg]
          | None =>
              [UiError "Unexpected error occurred. Please check the logs or run with --verbose for more details."]
          end,
       1%Z)
  | None => ([Track "cli.start"; Track "cli.success"], 0%Z)
  end.

(** How a handler that [run] calls ends: it returns its error, it
    panics, or it never returns (the prompt of [getStage] waits for
    input, the dev session runs until it is interrupted). *)
Inductive HandlerEnd : Type :=
| HandlerReturns (e : option error)
| HandlerPanics
| HandlerNeverReturns.

(** How the process ends: with its output and an exit code, or not at
    all. *)
Inductive ProcessEnd : Type :=
| Exits (output : list Output) (code : Z)
| NeverExits (output : list Output).

Definition exitsWith (r : list Output * Z) : ProcessEnd :=
  Exits (fst r) (snd r).

(** [func main()] as a whole on a command line, the handlers' ends being
    given by [exec]; an unrecovered panic ends a Go program with exit
    code 2. *)
Definition process (g : Setup) (exec : Handler -> Cli -> HandlerEnd)
    (osArgs : list string) : ProcessEnd :=
  match run g osArgs with
  | HelpRender _ => exitsWith (main (Some ErrHelp))
  | SetupError e => exitsWith (main (Some e))
  | HandlerCall h cli =>
      match exec h cli with
      | HandlerReturns e => exitsWith (main e)
      | HandlerPanics => Exits [Track "cli.start"] 2%Z
      | HandlerNeverReturns => NeverExits [Track "cli.start"]
      end
  | Panicked => Exits [Track "cli.start"] 2%Z
  end.

(** The program from its start: the initialiser of the package variable
    [logFile] runs before [main] and panics when [os.CreateTemp] fails. *)
Definition program (createTemp : option error) (g : Setup)
    (exec : Handler -> Cli -> HandlerEnd) (osArgs : list string)
    : ProcessEnd :=
  match createTemp with
  | Some _ => Exits [] 2%Z
  | None => process g exec osArgs
  end.

End WithTransformError.

End Main.
Export Main.

(* ===================================================================== *)
(** * The command tree as a whole *)
(* ===================================================================== *)

Module Tree.

(** The flags [registerFlags] visits, in the order it visits them: a
    command's own flags, then those of its children. *)
Fixpoint treeFlags (c : Command) : list Flag :=
  match c with
  | mkCommand _ _ _ fl ch _ => fl ++ flat_map treeFlags ch
  end.

(** A test that holds of a command and of every command below it. *)
Fixpoint everywhere (P : Command -> bool) (c : Command) : bool :=
  match c with
  | mkCommand _ _ _ _ ch _ => P c && forallb (everywhere P) ch
  end.

(** Induction over the tree: the children of a command come first. *)
Fixpoint Command_tree_ind (P : Command -> Prop)
    (step : forall c : Command, List.Forall P (Children c) -> P c)
    (c : Command) : P c :=
  match c as c0 return (List.Forall P (Children c0) -> P c0) -> P c0 with
  | mkCommand n h a f ch r => fun k =>
      k ((fix all (l : list Command) : List.Forall P l :=
            match l with
            | [] => @List.Forall_nil Command P
            | d :: l' =>
                @List.Forall_cons Command P d l'
                  (Command_tree_ind P step d) (all l')
            end) ch)
  end (step c).

End Tree.
Export Tree.

(* ===================================================================== *)
(** * Help layout *)
(* ===================================================================== *)

Module Help.

(** [strings.Join(elems, sep)] *)
Fixpoint Join (elems : list string) (sep : string) : string :=
  match elems with
  | [] => ""
  | x :: rest =>
      match rest with
      | [] => x
      | _ :: _ => x ++ sep ++ Join rest sep
      end
  end.

(** One element of [ArgumentList.String]: angle brackets around a
    required argument, square brackets around an optional one. *)
Definition renderArgument (arg : Argument) : string :=
  if arg_Required arg then "<" ++ arg_Name arg ++ ">"
  else "[" ++ arg_Name arg ++ "]".

(** [func (a ArgumentList) String() string] *)
Definition ArgumentList_String (a : list Argument) : string :=
  Join (map renderArgument a) " ".

(** The [next] of one child in [PrintHelp]: the byte length of its name,
    plus that of its arguments and a space when it has arguments. *)
Definition subcommandWidth (child : Command) : nat :=
  let next := String.length (Name child) in
  if (0 <? length (Args child))%nat
  then (next + (String.length (ArgumentList_String (Args child)) + 1))%nat
  else next.

(** The [maxSubcommand] loop of [PrintHelp]; hidden children are
    skipped. *)
Definition maxSubcommand (children : list Command) : nat :=
  fold_left
    (fun m child =>
       if Hidden child then m
       else
         let next := subcommandWidth child in
         if (m <? next)%nat then next else m)
    children 0%nat.

(** What [PrintHelp] prints for one child in the padded column: the
    name, followed by a space and the arguments when it has arguments. *)
Definition subcommandLabel (child : Command) : string :=
  if (0 <? length (Args child))%nat
  then Join [Name child; ArgumentList_String (Args child)] " "
  else Name child.

(** The [maxFlag] loop of [PrintHelp]: over the flags of every command
    of the path. *)
Definition maxFlag (c : CommandPath) : nat :=
  fold_left
    (fun m cmd =>
       fold_left
         (fun m f =>
            let l := (String.length (flag_Name f) + 3)%nat in
            if (m <? l)%nat then l else m)
         (Flags cmd) m)
    c 0%nat.

End Help.
Export Help.

(* ===================================================================== *)
(** * More handlers *)
(* ===================================================================== *)

Module MoreHandlers.

(** The [Run] of [secret set]. *)
Definition secretSetRun (w : World) (cli : Cli) : Fn (option error) :=
  let key := default "" (Cli_Positional cli 0) in
  let value := default "" (Cli_Positional cli 1) in
  r ← call CallInitProject (initProject_result w);
  match r with
  | inl err => return_ (Some err)
  | inr app =>
      defer CallCleanup;;
      r ← GetSecrets w;
      match r with
      | inl err => return_ (Some (ReadableError (Some err) "Could not get secrets"))
      | inr secrets =>
          let secrets := <[key := value]> secrets in
          err ← PutSecrets w secrets;
          match err with
          | Some err =>
              return_ (Some (ReadableError (Some err) "Could not set secret"))
          | None =>
              call (CallUiSuccess
                ("Set " ++ quote ++ key ++ quote
                 ++ " for stage " ++ quote ++ app_Stage app ++ quote)) tt;;
              return_ None
          end
      end
  end.

(** The calls of the handlers that work on the stack. *)
Inductive StackCall : Type :=
| SInitProject
| SCleanup
| SCancel
| SPrintUnlocked (name stage : string)
| SImport (type name id parent : string).

Record StackFrame : Type := mkStackFrame {
  scalls : list StackCall;
  sdeferred : list StackCall
}.

Definition StackFn (A : Type) : Type := StackFrame -> StackFrame * Flow A.

#[export] Instance StackFn_ret : MRet StackFn := fun A a fr => (fr, Next a).

#[export] Instance StackFn_bind : MBind StackFn := fun A B k m fr =>
  match m fr with
  | (fr', Next a) => k a fr'
  | (fr', Return e) => (fr', Return e)
  end.

Definition sreturn {A : Type} (e : option error) : StackFn A :=
  fun fr => (fr, Return e).

Definition scall {A : Type} (c : StackCall) (result : A) : StackFn A :=
  fun fr => (mkStackFrame (scalls fr ++ [c]) (sdeferred fr), Next result).

Definition sdefer (c : StackCall) : StackFn unit :=
  fun fr => (mkStackFrame (scalls fr) (c :: sdeferred fr), Next tt).

(** Running a body: the calls, then the deferred calls, last deferred
    first, and the error returned. *)
Definition execStack (body : StackFn (option error))
    : list StackCall * option error :=
  let '(fr, flow) := body (mkStackFrame [] []) in
  (scalls fr ++ sdeferred fr,
   match flow with Next e => e | Return e => e end).

(** What the collaborators answer to the stack handlers. *)
Record StackWorld : Type := mkStackWorld {
  s_initProject : error + App;
  s_Cancel : option error;
  s_Import : option error
}.

(** The [Run] of [unlock]; the three coloured prints of the success
    message are one call. *)
Definition unlockRun (w : StackWorld) : StackFn (option error) :=
  r ← scall SInitProject (s_initProject w);
  match r with
  | inl err => sreturn (Some err)
  | inr app =>
      sdefer SCleanup;;
      err ← scall SCancel (s_Cancel w);
      match err with
      | Some err => sreturn (Some (ReadableError (Some err) ""))
      | None =>
          scall (SPrintUnlocked (app_Name app) (app_Stage app)) tt;;
          sreturn None
      end
  end.

(** The [Run] of [import-unstable]; [None] is the panic of
    [cli.String("parent")], which comes before every call. *)
Definition importUnstableRun (w : StackWorld) (cli : Cli)
    : option (list StackCall * option error) :=
  let resourceType := default "" (Cli_Positional cli 0) in
  let name := default "" (Cli_Positional cli 1) in
  let id := default "" (Cli_Positional cli 2) in
  match Cli_String cli "parent" with
  | None => None
  | Some parent =>
      Some (execStack (
        r ← scall SInitProject (s_initProject w);
        match r with
        | inl err => sreturn (Some err)
        | inr _ =>
            sdefer SCleanup;;
            err ← scall (SImport resourceType name id parent) (s_Import w);
            match err with
            | Some err => sreturn (Some err)
            | None => sreturn None
            end
        end))
  end.

(** [strings.TrimPrefix(s, prefix)] *)
Definition TrimPrefix (s pre : string) : string :=
  if String.prefix pre s
  then String.substring (String.length pre)
         (String.length s - String.length pre) s
  else s.

(** What [upgrade] reports once [global.Upgrade] returned [newVersion],
    [version] being the version of the running binary. *)
Inductive UpgradeReport : Type :=
| AlreadyOnLatest (version : string)
| Upgraded (version newVersion : string).

Definition upgradeReport (version newVersion : string) : UpgradeReport :=
  let newVersion := TrimPrefix newVersion "v" in
  if String.eqb newVersion version then AlreadyOnLatest version
  else Upgraded version newVersion.

Section Shell.

(** [strings.Fields], from the standard library. *)
Variable Fields : string -> list string.

(** The command [shell] runs: the words of all positionals, or [sh]
    when there is none; [None] would be the panic of [args[0]]. *)
Definition shellCommand (arguments : list string)
    : option (string * list string) :=
  let args := fold_left (fun args arg => args ++ Fields arg) arguments [] in
  let args := if (length args =? 0)%nat then args ++ ["sh"] else args in
  match args with
  | [] => None
  | program :: rest => Some (program, rest)
  end.

End Shell.

End MoreHandlers.
Export MoreHandlers.

(* ===================================================================== *)
(** * Properties of the dispatcher *)
(* ===================================================================== *)

Module DispatcherFacts.

Lemma lastCommand_snoc (cmds : CommandPath) (c : Command) :
  lastCommand (cmds ++ [c]) = c.
Proof. unfold lastCommand. apply List.last_last. Qed.

Lemma findChild_Name (children : list Command) (arg : string) (c : Command) :
  findChild children arg = Some c -> Name c = arg.
Proof.
  induction children as [|d rest IH]; simpl; [discriminate|].
  destruct (String.eqb (Name d) arg) eqn:E.
  - intros [= <-]. now apply String.eqb_eq.
  - exact IH.
Qed.

Lemma walk_cons (cmds : CommandPath) (arg : string) (rest : list string) :
  walk cmds (arg :: rest) =
  match Children (lastCommand cmds) with
  | [] => (cmds, arg :: rest)
  | ch =>
      match findChild ch arg with
      | None => (cmds, [])
      | Some cmd => walk (cmds ++ [cmd]) rest
      end
  end.
Proof. reflexivity. Qed.

(** The loop from any path: it appends the commands the leading tokens
    name, and leaves positionals only below a command without children. *)
Lemma walk_spec (args : list string) : forall cmds : CommandPath,
  exists matched : list Command,
    fst (walk cmds args) = cmds ++ matched /\
    map Name matched = take (length matched) args /\
    match Children (lastCommand (fst (walk cmds args))) with
    | [] => snd (walk cmds args) = drop (length matched) args
    | ch =>
        snd (walk cmds args) = [] /\
        match drop (length matched) args with
        | [] => True
        | tok :: _ => findChild ch tok = None
        end
    end.
Proof.
  induction args as [|arg rest IH]; intros cmds.
  - exists []. cbn [walk fst snd length take drop map]. rewrite app_nil_r.
    split; [reflexivity|]. split; [reflexivity|].
    destruct (Children (lastCommand cmds)); auto.
  - rewrite walk_cons.
    destruct (Children (lastCommand cmds)) as [|c0 ch] eqn:Ech.
    + exists []. cbn [fst snd length take drop map]. rewrite app_nil_r, Ech. auto.
    + destruct (findChild (c0 :: ch) arg) as [cmd|] eqn:Ef.
      * destruct (IH (cmds ++ [cmd])) as (matched & Hp & Hn & Hpos).
        exists (cmd :: matched). rewrite Hp, <- app_assoc.
        split; [reflexivity|]. split.
        { cbn [map length take]. f_equal; [now apply findChild_Name in Ef | exact Hn]. }
        rewrite Hp, <- app_assoc in Hpos. exact Hpos.
      * exists []. cbn [fst snd length take drop map]. rewrite app_nil_r, Ech.
        split; [reflexivity|]. split; [reflexivity|]. split; [reflexivity|].
        exact Ef.
Qed.

(** No flag of the tree is registered twice. *)
Lemma Root_flagNames_distinct : NoDup (flagNames Root).
Proof. apply (bool_decide_unpack _). vm_compute. reflexivity. Qed.

Lemma sameKind_trans (a b c : FlagValue) :
  sameKind a b = true -> sameKind b c = true -> sameKind a c = true.
Proof. destruct a, b, c; simpl; congruence. Qed.

Lemma sameKind_refl (a : FlagValue) : sameKind a a = true.
Proof. now destruct a. Qed.

Lemma setValue_kind (cur new : FlagValue) (v : string) :
  setValue cur v = Some new -> sameKind cur new = true.
Proof.
  destruct cur as [s0|b0]; simpl.
  - now intros [= <-].
  - destruct (ParseBool v); simpl; [now intros [= <-] | discriminate].
Qed.

(** A long flag only ever sets a registered flag, to a value of the kind
    it was registered with. *)
Lemma parseLongArg_kind (fs : gmap string FlagValue) (s body : string) :
  match parseLongArg fs s body with
  | LongSet name new =>
      exists cur, fs !! name = Some cur /\ sameKind cur new = true
  | LongTakeNext name => exists old, fs !! name = Some (StringValue old)
  | LongFail _ => True
  end.
Proof.
  unfold parseLongArg. destruct body as [|c body']; [exact I|].
  destruct (Ascii.eqb c "-" || Ascii.eqb c "="); [exact I|].
  destruct (splitEq (String c body')) as [name value].
  destruct (fs !! name) as [cur|] eqn:Hcur.
  - destruct value as [v|].
    + destruct (setValue cur v) as [new|] eqn:Hset; [|exact I].
      exists cur. split; [exact Hcur|]. now apply setValue_kind in Hset.
    + destruct cur as [old|b].
      * now exists old.
      * exists (BoolValue b). now split.
  - now destruct (String.eqb name "help").
Qed.

Lemma insert_keeps_kind (fs : gmap string FlagValue) (name : string)
    (cur new : FlagValue) :
  fs !! name = Some cur -> sameKind cur new = true ->
  forall k v, fs !! k = Some v ->
    exists v', <[name := new]> fs !! k = Some v' /\ sameKind v v' = true.
Proof.
  intros Hcur Hkind k v Hk. destruct (decide (name = k)) as [->|Hne].
  - exists new. rewrite lookup_insert_eq. split; [reflexivity|]. congruence.
  - exists v. rewrite lookup_insert_ne by assumption. split; [assumption|].
    apply sameKind_refl.
Qed.

(** Parsing keeps every registered flag registered, with its kind. *)
Lemma parseArgs_kinds (n : nat) : forall (args : list string)
    (fs : gmap string FlagValue) (out : list string),
  (length args <= n)%nat ->
  forall k v, fs !! k = Some v ->
    exists v', fst (fst (parseArgs fs out args)) !! k = Some v'
               /\ sameKind v v' = true.
Proof.
  induction n as [|n IH]; intros args fs out Hlen k v Hk.
  - destruct args; [|simpl in Hlen; lia]. exists v. split; [exact Hk|].
    apply sameKind_refl.
  - destruct args as [|s rest].
    { exists v. split; [exact Hk | apply sameKind_refl]. }
    simpl in Hlen. cbn [parseArgs].
    destruct (classify s) as [| |body|c].
    + apply IH; [lia | exact Hk].
    + exists v. split; [exact Hk | apply sameKind_refl].
    + pose proof (parseLongArg_kind fs s body) as Hlong.
      destruct (parseLongArg fs s body) as [name new|name|e].
      * destruct Hlong as (cur & Hcur & Hkind).
        destruct (insert_keeps_kind fs name cur new Hcur Hkind k v Hk)
          as (v1 & Hv1 & Hk1).
        destruct (IH rest (<[name := new]> fs) out ltac:(lia) k v1 Hv1)
          as (v2 & Hv2 & Hk2).
        exists v2. split; [exact Hv2|]. eapply sameKind_trans; eassumption.
      * destruct rest as [|nxt rest'].
        { exists v. split; [exact Hk | apply sameKind_refl]. }
        destruct Hlong as (old & Hold).
        destruct (insert_keeps_kind fs name (StringValue old) (StringValue nxt)
                    Hold eq_refl k v Hk) as (v1 & Hv1 & Hk1).
        simpl in Hlen.
        destruct (IH rest' (<[name := StringValue nxt]> fs) out ltac:(lia) k v1 Hv1)
          as (v2 & Hv2 & Hk2).
        exists v2. split; [exact Hv2|]. eapply sameKind_trans; eassumption.
      * exists v. split; [exact Hk | apply sameKind_refl].
    + destruct (Ascii.eqb c "h");
        (exists v; split; [exact Hk | apply sameKind_refl]).
Qed.

Lemma resolve_flags (osArgs : list string) :
  flags (fst (resolve osArgs)) = fst (fst (Parse (registerFlags Root ∅) osArgs)).
Proof.
  unfold resolve. destruct (Parse (registerFlags Root ∅) osArgs) as [[fs fargs] e].
  destruct (walk [Root] fargs). reflexivity.
Qed.

(** [cli.Bool("help")] never panics on a resolved command line. *)
Lemma resolve_help_is_bool (osArgs : list string) :
  exists b, Cli_Bool (fst (resolve osArgs)) "help" = Some b.
Proof.
  unfold Cli_Bool. rewrite resolve_flags. unfold Parse.
  destruct (parseArgs_kinds (length osArgs) osArgs (registerFlags Root ∅) []
              (le_n _) "help" (BoolValue false)) as (v' & Hv & Hkind).
  { vm_compute. reflexivity. }
  rewrite Hv. destruct v' as [s|b]; [discriminate|]. now exists b.
Qed.

(** [cli.String("stage")] never panics on a resolved command line. *)
Lemma resolve_stage_is_string (osArgs : list string) :
  exists s, Cli_String (fst (resolve osArgs)) "stage" = Some s.
Proof.
  unfold Cli_String. rewrite resolve_flags. unfold Parse.
  destruct (parseArgs_kinds (length osArgs) osArgs (registerFlags Root ∅) []
              (le_n _) "stage" (StringValue "")) as (v' & Hv & Hkind).
  { vm_compute. reflexivity. }
  rewrite Hv. destruct v' as [s|b]; [|discriminate]. now exists s.
Qed.

(** [configureLog] never panics on a resolved command line. *)
Lemma resolve_configureLog (osArgs : list string) :
  exists verbose, configureLog (fst (resolve osArgs)) = Some verbose.
Proof.
  unfold configureLog, Cli_Bool. rewrite resolve_flags. unfold Parse.
  destruct (parseArgs_kinds (length osArgs) osArgs (registerFlags Root ∅) []
              (le_n _) "verbose" (BoolValue false)) as (v' & Hv & Hkind).
  { vm_compute. reflexivity. }
  rewrite Hv. destruct v' as [s|b]; [discriminate|]. now exists b.
Qed.

(** [run] past [configureLog]. *)
Lemma run_unfold (g : Setup) (osArgs : list string) :
  run g osArgs =
  match snd (resolve osArgs) with
  | Some _ => Cli_PrintHelp (fst (resolve osArgs))
  | None =>
      match setup g with
      | Some e => SetupError e
      | None => dispatch (fst (resolve osArgs))
      end
  end.
Proof.
  unfold run. destruct (resolve_configureLog osArgs) as (verbose & Hv).
  destruct (resolve osArgs) as [cli perr]. cbn [fst snd] in *.
  now rewrite Hv.
Qed.


(** C2 as stated fails: at the root, the token [bogus] matches no child,
    the walk stops with the path still [[Root]] and one token unconsumed,
    yet the positionals are empty, not [["bogus"]].  The same below
    [secret]: two tokens are left and none becomes a positional. *)
Lemma walk_mismatch_drops_tokens :
  findChild (Children Root) "bogus" = None /\
  fst (walk [Root] ["bogus"]) = [Root] /\
  drop (length (fst (walk [Root] ["bogus"])) - 1) ["bogus"] = ["bogus"] /\
  snd (walk [Root] ["bogus"]) = [] /\
  snd (walk [Root] ["bogus"]) <> ["bogus"] /\
  arguments (fst (resolve ["secret"; "bogus"; "x"])) = [] /\
  path (fst (resolve ["secret"; "bogus"; "x"])) = [Root; secretCommand].
Proof. repeat split; try reflexivity. discriminate. Qed.

(** C2, amended: for every argument vector, the walk from the root
    consumes the leading tokens that name the path below the root.  When
    it ends on a command without children, all remaining tokens are the
    positionals; when it ends on a command with children (no token left,
    or the next token matches no child), the positionals are empty. *)
Theorem walk_positionals (args : list string) :
  let cmds := fst (walk [Root] args) in
  let positionals := snd (walk [Root] args) in
  let n := (length cmds - 1)%nat in
  head cmds = Some Root /\
  map Name (tail cmds) = take n args /\
  match Children (lastCommand cmds) with
  | [] => positionals = drop n args
  | ch =>
      positionals = [] /\
      match drop n args with
      | [] => True
      | tok :: _ => findChild ch tok = None
      end
  end.
Proof.
  cbv zeta. destruct (walk_spec args [Root]) as (matched & Hp & Hn & Hpos).
  rewrite Hp in *. cbn [app length head tail Nat.sub].
  rewrite Nat.sub_0_r. auto.
Qed.

(** C3: [secret set Foo bar --stage=prod] resolves to root, [secret],
    [set] with positionals [Foo], [bar] and the stage flag [prod], and
    the [secret set] handler is what runs; [bogus] resolves to the root
    alone and ends in the help of the root's path, whatever the setup
    steps do short of failing. *)
Theorem resolve_secret_set_and_bogus :
  let argv := ["secret"; "set"; "Foo"; "bar"; "--stage=prod"] in
  (snd (resolve argv) = None /\
   path (fst (resolve argv)) = [Root; secretCommand; secretSetCommand] /\
   arguments (fst (resolve argv)) = ["Foo"; "bar"] /\
   flags (fst (resolve argv)) !! "stage" = Some (StringValue "prod") /\
   Cli_String (fst (resolve argv)) "stage" = Some "prod") /\
  (forall g : Setup,
     run g argv =
     match setup g with
     | Some e => SetupError e
     | None => HandlerCall RunSecretSet (fst (resolve argv))
     end) /\
  (snd (resolve ["bogus"]) = None /\
   path (fst (resolve ["bogus"])) = [Root] /\
   arguments (fst (resolve ["bogus"])) = []) /\
  (forall g : Setup,
     run g ["bogus"] =
     match setup g with
     | Some e => SetupError e
     | None => HelpRender [Root]
     end).
Proof.
  cbv zeta. split; [|split; [|split]].
  - repeat split; vm_compute; reflexivity.
  - intros g. rewrite run_unfold.
    change (snd (resolve ["secret"; "set"; "Foo"; "bar"; "--stage=prod"]))
      with (@None error).
    cbv iota beta. destruct (setup g); [reflexivity|].
    vm_compute. reflexivity.
  - repeat split; vm_compute; reflexivity.
  - intros g. rewrite run_unfold.
    change (snd (resolve ["bogus"])) with (@None error).
    cbv iota beta. destruct (setup g); [reflexivity|].
    vm_compute. reflexivity.
Qed.

(** C4: on a command line that parsed and whose setup steps succeeded,
    [run] ends in the help of the resolved path exactly when the help
    flag is set, or the resolved command has no handler, or fewer
    positionals than required arguments were given; otherwise it calls
    the resolved command's handler on the command line. *)
Theorem run_help_exactly_when (g : Setup) (osArgs : list string) (cli : Cli) :
  resolve osArgs = (cli, None) ->
  setup g = None ->
  let active := lastCommand (path cli) in
  let bypass :=
    Cli_Bool cli "help" = Some true \/ Run active = None \/
    (length (arguments cli) < requiredCount active)%nat in
  (run g osArgs = HelpRender (path cli) <-> bypass) /\
  (~ bypass -> exists h, Run active = Some h /\ run g osArgs = HandlerCall h cli).
Proof.
  intros Hres Hsetup active bypass. subst active bypass.
  destruct (resolve_help_is_bool osArgs) as (b & Hb).
  rewrite run_unfold. rewrite Hres in *. cbn [fst snd] in *. rewrite Hsetup.
  unfold dispatch, Cli_PrintHelp. rewrite Hb.
  destruct (Run (lastCommand (path cli))) as [h|] eqn:Hrun; cbn [isNil];
    rewrite ?orb_false_r, ?orb_true_r; cbn [orb].
  - destruct (Nat.ltb_spec (length (arguments cli))
                (requiredCount (lastCommand (path cli)))) as [Hlt|Hge].
    + rewrite orb_true_r. split.
      * split; [intros _; right; right; exact Hlt | reflexivity].
      * intros Hn. exfalso. apply Hn. right. right. exact Hlt.
    + rewrite orb_false_r. destruct b.
      * split.
        -- split; [intros _; left; reflexivity | reflexivity].
        -- intros Hn. exfalso. apply Hn. left. reflexivity.
      * split.
        -- split; [discriminate|].
           intros [H|[H|H]]; [discriminate | discriminate | lia].
        -- intros _. exists h. split; reflexivity.
  - split.
    + split; [intros _; right; left; reflexivity | reflexivity].
    + intros Hn. exfalso. apply Hn. right. left. reflexivity.
Qed.

(** C4 at [secret set Foo]: one positional for two required arguments. *)
Lemma run_help_exactly_when_witness :
  let argv := ["secret"; "set"; "Foo"] in
  let g := mkSetup false None false None in
  resolve argv = (fst (resolve argv), None) /\
  setup g = None /\
  (length (arguments (fst (resolve argv)))
   < requiredCount (lastCommand (path (fst (resolve argv)))))%nat /\
  run g argv = HelpRender [Root; secretCommand; secretSetCommand].
Proof.
  cbv zeta.
  assert (Hres : resolve ["secret"; "set"; "Foo"]
                 = (fst (resolve ["secret"; "set"; "Foo"]), None))
    by (vm_compute; reflexivity).
  assert (Hlt : (length (arguments (fst (resolve ["secret"; "set"; "Foo"])))
                 < requiredCount
                     (lastCommand (path (fst (resolve ["secret"; "set"; "Foo"])))))%nat)
    by (vm_compute; lia).
  split; [exact Hres|]. split; [reflexivity|]. split; [exact Hlt|].
  change [Root; secretCommand; secretSetCommand]
    with (path (fst (resolve ["secret"; "set"; "Foo"]))).
  apply (proj1 (run_help_exactly_when (mkSetup false None false None)
                  ["secret"; "set"; "Foo"] _ Hres eq_refl)).
  right. right. exact Hlt.
Defined.

(** C10: [Cli.Positional] at an index at or past the number of
    positionals is the empty string, not a failure. *)
Theorem Positional_past_end (cli : Cli) (index : Z) :
  (Z.of_nat (length (arguments cli)) <= index)%Z ->
  Cli_Positional cli index = Some "".
Proof.
  intros H. unfold Cli_Positional.
  destruct (Z.geb_spec index (Z.of_nat (length (arguments cli)))); [reflexivity|lia].
Qed.

Lemma Positional_past_end_witness :
  (Z.of_nat (length (arguments (mkCli ∅ ["Foo"] [Root]))) <= 1)%Z /\
  Cli_Positional (mkCli ∅ ["Foo"] [Root]) 1 = Some "".
Proof.
  split; [simpl; lia|].
  apply (Positional_past_end (mkCli ∅ ["Foo"] [Root]) 1). simpl. lia.
Defined.

(** Below the end and not negative, it is the positional at the index;
    only a negative index fails. *)
Lemma Positional_in_range (cli : Cli) (index : Z) :
  (0 <= index < Z.of_nat (length (arguments cli)))%Z ->
  Cli_Positional cli index = arguments cli !! Z.to_nat index /\
  is_Some (Cli_Positional cli index).
Proof.
  intros H. unfold Cli_Positional.
  destruct (Z.geb_spec index (Z.of_nat (length (arguments cli)))); [lia|].
  destruct (Z.ltb_spec index 0); [lia|]. split; [reflexivity|].
  apply lookup_lt_is_Some. lia.
Qed.

End DispatcherFacts.

(* ===================================================================== *)
(** * Properties of the handlers *)
(* ===================================================================== *)

Module HandlerFacts.

Ltac run_body :=
  unfold execFn, mbind, Fn_bind, call, defer, return_; cbn.

(** C1: in [state edit], once the project initialised and [Lock]
    succeeded, every run of the handler ends with [Unlock] (followed by
    the project cleanup, deferred before it), whatever [PullState], the
    editor's start, the editor's exit and [PushState] answer; nothing
    after [Lock] unlocks or locks before that. *)
Theorem stateEdit_always_unlocks (w : World) (store : gmap string string)
    (app : App) :
  initProject_result w = inr app ->
  Lock_result w = None ->
  exists body : list Call,
    fst (fst (execFn (stateEditRun w) store))
    = [CallInitProject; CallLock] ++ body ++ [CallUnlock; CallCleanup] /\
    ~ In CallUnlock body /\ ~ In CallLock body.
Proof.
  intros Hinit Hlock. unfold stateEditRun. run_body.
  rewrite Hinit. cbn. rewrite Hlock. cbn.
  destruct (PullState_result w) as [e|file]; cbn.
  { exists [CallPullState]. cbn. intuition discriminate. }
  destruct (editorStart_result w) as [e|]; cbn.
  { eexists [CallPullState; CallGetenv "EDITOR"; CallEditorStart _ file].
    cbn. split; [reflexivity|]. intuition discriminate. }
  destruct (editorWait_result w) as [e|]; cbn.
  { eexists [CallPullState; CallGetenv "EDITOR"; CallEditorStart _ file;
             CallEditorWait].
    cbn. split; [reflexivity|]. intuition discriminate. }
  eexists [CallPullState; CallGetenv "EDITOR"; CallEditorStart _ file;
           CallEditorWait; CallPushState].
  cbn. split; [reflexivity|]. intuition discriminate.
Qed.

(** C1 where the editor exits with an error. *)
Lemma stateEdit_always_unlocks_witness :
  let w := mkWorld (inr (mkApp "app" "dev")) None (inr "/tmp/state.json") None
             "" None (Some (OtherError "exit status 1")) None None None None in
  initProject_result w = inr (mkApp "app" "dev") /\
  Lock_result w = None /\
  exists body : list Call,
    fst (fst (execFn (stateEditRun w) ∅))
    = [CallInitProject; CallLock] ++ body ++ [CallUnlock; CallCleanup] /\
    ~ In CallUnlock body /\ ~ In CallLock body.
Proof.
  cbv zeta. split; [reflexivity|]. split; [reflexivity|].
  apply (stateEdit_always_unlocks _ ∅ (mkApp "app" "dev")); reflexivity.
Defined.

(** The four exits after the lock, one by one. *)
Lemma stateEdit_exits (w : World) (store : gmap string string) (app : App) :
  initProject_result w = inr app ->
  Lock_result w = None ->
  let editor := if String.eqb (EDITOR w) "" then "vim" else EDITOR w in
  execFn (stateEditRun w) store =
  match PullState_result w with
  | inl e =>
      ([CallInitProject; CallLock; CallPullState; CallUnlock; CallCleanup],
       store, Some (ReadableError (Some e) "Could not pull state"))
  | inr file =>
      match editorStart_result w with
      | Some e =>
          ([CallInitProject; CallLock; CallPullState; CallGetenv "EDITOR";
            CallEditorStart editor file; CallUnlock; CallCleanup],
           store, Some (ReadableError (Some e) "Could not start editor"))
      | None =>
          match editorWait_result w with
          | Some e =>
              ([CallInitProject; CallLock; CallPullState; CallGetenv "EDITOR";
                CallEditorStart editor file; CallEditorWait;
                CallUnlock; CallCleanup],
               store, Some (ReadableError (Some e) "Editor exited with error"))
          | None =>
              ([CallInitProject; CallLock; CallPullState; CallGetenv "EDITOR";
                CallEditorStart editor file; CallEditorWait; CallPushState;
                CallUnlock; CallCleanup],
               store, PushState_result w)
          end
      end
  end.
Proof.
  intros Hinit Hlock. unfold stateEditRun. run_body.
  rewrite Hinit. cbn. rewrite Hlock. cbn.
  destruct (PullState_result w) as [e|file]; cbn; [reflexivity|].
  destruct (editorStart_result w) as [e|]; cbn; [reflexivity|].
  destruct (editorWait_result w) as [e|]; cbn; reflexivity.
Qed.

(** Without the lock nothing is unlocked. *)
Lemma stateEdit_lock_failed (w : World) (store : gmap string string)
    (app : App) (e : error) :
  initProject_result w = inr app ->
  Lock_result w = Some e ->
  execFn (stateEditRun w) store =
  ([CallInitProject; CallLock; CallCleanup], store,
   Some (ReadableError (Some e) "Could not lock state")).
Proof.
  intros Hinit Hlock. unfold stateEditRun. run_body.
  rewrite Hinit. cbn. rewrite Hlock. reflexivity.
Qed.

(** C8: [secret remove] of a key the fetched secrets do not have returns
    the readable error that names the key and the stage, never calls
    [PutSecrets], and leaves the stored secrets as they were. *)
Theorem secretRemove_absent_key (w : World) (cli : Cli)
    (store : gmap string string) (app : App) (key : string) :
  initProject_result w = inr app ->
  GetSecrets_error w = None ->
  Cli_Positional cli 0 = Some key ->
  store !! key = None ->
  let '(trace, stored, result) := execFn (secretRemoveRun w cli) store in
  result = Some (ReadableError None
             ("Secret " ++ quote ++ key ++ quote
              ++ " does not exist for stage " ++ quote ++ app_Stage app ++ quote)) /\
  stored = store /\
  trace = [CallInitProject; CallGetSecrets; CallCleanup] /\
  forall secrets, ~ In (CallPutSecrets secrets) trace.
Proof.
  intros Hinit Hget Hkey Habsent. unfold secretRemoveRun, GetSecrets. run_body.
  rewrite Hinit. cbn. rewrite Hget. cbn. rewrite Hkey. cbn.
  rewrite Habsent. cbn.
  repeat split. intros secrets. cbn. intuition discriminate.
Qed.

(** C8 at [secret remove Foo] on a store that only has [Bar]. *)
Lemma secretRemove_absent_key_witness :
  let w := mkWorld (inr (mkApp "app" "dev")) None (inr "") None "" None None
             None None None None in
  let cli := mkCli ∅ ["Foo"] [Root] in
  let store : gmap string string := {["Bar" := "1"]} in
  initProject_result w = inr (mkApp "app" "dev") /\
  GetSecrets_error w = None /\
  Cli_Positional cli 0 = Some "Foo" /\
  store !! "Foo" = None /\
  snd (execFn (secretRemoveRun w cli) store)
  = Some (ReadableError None
      ("Secret " ++ quote ++ "Foo" ++ quote ++ " does not exist for stage "
       ++ quote ++ "dev" ++ quote)) /\
  snd (fst (execFn (secretRemoveRun w cli) store)) = store.
Proof.
  cbv zeta.
  pose proof (secretRemove_absent_key
    (mkWorld (inr (mkApp "app" "dev")) None (inr "") None "" None None
       None None None None)
    (mkCli ∅ ["Foo"] [Root]) {["Bar" := "1"]} (mkApp "app" "dev") "Foo"
    eq_refl eq_refl eq_refl eq_refl) as H.
  destruct (execFn _ _) as [[trace stored] result].
  destruct H as (Hres & Hstore & _).
  repeat split; assumption.
Defined.

(** A key that is there is deleted and the rest is put back. *)
Lemma secretRemove_present_key (w : World) (cli : Cli)
    (store : gmap string string) (app : App) (key value : string) :
  initProject_result w = inr app ->
  GetSecrets_error w = None ->
  PutSecrets_error w = None ->
  Cli_Positional cli 0 = Some key ->
  store !! key = Some value ->
  snd (fst (execFn (secretRemoveRun w cli) store)) = delete key store /\
  snd (execFn (secretRemoveRun w cli) store) = None.
Proof.
  intros Hinit Hget Hput Hkey Hpresent.
  unfold secretRemoveRun, GetSecrets, PutSecrets. run_body.
  rewrite Hinit. cbn. rewrite Hget. cbn. rewrite Hkey. cbn.
  rewrite Hpresent. cbn. rewrite Hput. cbn. split; reflexivity.
Qed.

End HandlerFacts.

(* ===================================================================== *)
(** * Properties of [main] *)
(* ===================================================================== *)

Module MainFacts.

Import HandlerFacts.

Lemma main_exit_code (TransformError : error -> error) (r : option error) :
  snd (main TransformError r) = match r with None => 0%Z | Some _ => 1%Z end.
Proof. destruct r; reflexivity. Qed.

(** What [server] returns when the server is already running. *)
Lemma serverRun_already_running (w : World) (store : gmap string string)
    (app : App) :
  initProject_result w = inr app ->
  serverNew_error w = None ->
  serverStart_error w = Some ErrServerAlreadyRunning ->
  execFn (serverRun w) store =
  ([CallInitProject; CallServerNew; CallServerStart; CallCleanup], store,
   Some (ReadableError (Some ErrServerAlreadyRunning) "Server already running")).
Proof.
  intros Hinit Hnew Hstart. unfold serverRun. run_body.
  rewrite Hinit. cbn. rewrite Hnew. cbn. rewrite Hstart. reflexivity.
Qed.

(** C9: [main] exits with 0 exactly when [run] returned no error and
    with 1 on every error.  The [server] handler turns "already running"
    into a readable error with the text [Server already running]; the
    process then exits with the same code 1 as on any other error, and
    (when the error is reported as it is) shows that text. *)
Theorem exit_codes (TransformError : error -> error) (w : World)
    (store : gmap string string) (app : App) :
  initProject_result w = inr app ->
  serverNew_error w = None ->
  serverStart_error w = Some ErrServerAlreadyRunning ->
  let serverResult := snd (execFn (serverRun w) store) in
  (forall r, snd (main TransformError r) = 0%Z <-> r = None) /\
  (forall r, snd (main TransformError r) = 1%Z <-> r <> None) /\
  serverResult
  = Some (ReadableError (Some ErrServerAlreadyRunning) "Server already running") /\
  (forall e, snd (main TransformError serverResult)
             = snd (main TransformError (Some e))) /\
  (forall e msg, TransformError e = e -> serverResult = Some e ->
     asReadable e = Some msg ->
     msg = "Server already running" /\
     fst (main TransformError serverResult)
     = [Track "cli.start"; Track "cli.error"; SlogError e; UiError msg]).
Proof.
  intros Hinit Hnew Hstart serverResult. subst serverResult.
  rewrite (serverRun_already_running w store app Hinit Hnew Hstart). cbn [snd].
  split; [|split; [|split; [|split]]].
  - intros r. rewrite main_exit_code. destruct r; split; congruence.
  - intros r. rewrite main_exit_code. destruct r; split; congruence.
  - reflexivity.
  - intros e. rewrite !main_exit_code. reflexivity.
  - intros e msg Hid [= <-] [= <-]. split; [reflexivity|].
    unfold main. rewrite Hid. reflexivity.
Qed.

(** C9 with errors reported unchanged. *)
Lemma exit_codes_witness :
  let w := mkWorld (inr (mkApp "app" "dev")) None (inr "") None "" None None
             None None None (Some ErrServerAlreadyRunning) in
  initProject_result w = inr (mkApp "app" "dev") /\
  serverNew_error w = None /\
  serverStart_error w = Some ErrServerAlreadyRunning /\
  snd (main (fun e => e) (snd (execFn (serverRun w) ∅))) = 1%Z /\
  snd (main (fun e => e) (Some (OtherError "boom"))) = 1%Z /\
  snd (main (fun e => e) None) = 0%Z.
Proof.
  cbv zeta.
  destruct (exit_codes (fun e => e)
    (mkWorld (inr (mkApp "app" "dev")) None (inr "") None "" None None
       None None None (Some ErrServerAlreadyRunning))
    ∅ (mkApp "app" "dev") eq_refl eq_refl eq_refl) as (H0 & H1 & Hres & Hsame & _).
  split; [reflexivity|]. split; [reflexivity|]. split; [reflexivity|].
  split; [|split].
  - apply H1. rewrite Hres. discriminate.
  - apply H1. discriminate.
  - apply H0. reflexivity.
Defined.



End MainFacts.

(* ===================================================================== *)
(** * Properties of the stage resolver *)
(* ===================================================================== *)

Module StageFacts.



(** Whatever the loop breaks with is not empty. *)
Lemma promptLoop_nonempty (input : list ScanResult) :
  forall (stage token : string) (n : nat) (rest : list ScanResult),
  promptLoop stage input = (n, Some (token, rest)) -> token <> "".
Proof.
  induction input as [|r input IH]; intros stage token n rest; cbn.
  - discriminate.
  - destruct r as [t|stored].
    + destruct (String.eqb t "") eqn:Et.
      * destruct (promptLoop t input) as [k r'] eqn:Hl.
        intros [= <- ->]. eapply IH. exact Hl.
      * intros [= <- <- <-]. now apply String.eqb_neq.
    + destruct (promptLoop (default stage stored) input) as [k r'] eqn:Hl.
      intros [= <- ->]. eapply IH. exact Hl.
Qed.

(** Without such a token the loop never ends. *)
Lemma promptLoop_blocked (input : list ScanResult) : forall stage : string,
  Forall (fun r => match r with ScanOk t => t = "" | ScanErr _ => True end)
         input ->
  snd (promptLoop stage input) = None.
Proof.
  induction input as [|r input IH]; intros stage Hall; [reflexivity|].
  inversion Hall as [|? ? Hr Hrest]; subst. cbn.
  destruct r as [t|stored].
  - subst t. cbn. specialize (IH "" Hrest).
    destruct (promptLoop "" input). exact IH.
  - specialize (IH (default stage stored) Hrest).
    destruct (promptLoop (default stage stored) input). exact IH.
Qed.



(** C6 as stated fails: [Alice] is not one of the five names, yet the
    guess is [alice], not the literal user name; and [Root], which is
    not literally one of the five names either, gives the empty string.
    Both names are ASCII, so this holds whatever the Unicode tables
    are. *)
Lemma guessStage_not_literal :
  ~ In "Alice" ["root"; "admin"; "prod"; "dev"; "production"] /\
  (fun lower => guessStage lower (Some "Alice")) = (fun _ => "alice") /\
  guessStage id (Some "Alice") <> "Alice" /\
  (fun lower => guessStage lower (Some "Root")) = (fun _ => "").
Proof.
  split; [cbn; intuition discriminate|].
  split; [reflexivity|]. split; [discriminate | reflexivity].
Qed.

Lemma eqb_chain_In (stage : string) :
  String.eqb stage "root" || String.eqb stage "admin"
  || String.eqb stage "prod" || String.eqb stage "dev"
  || String.eqb stage "production" = true
  <-> In stage ["root"; "admin"; "prod"; "dev"; "production"].
Proof.
  rewrite !orb_true_iff, !String.eqb_eq. cbn. intuition congruence.
Qed.

(** On an ASCII string [strings.ToLower] works byte by byte. *)
Lemma ToLower_ascii (lower : string -> string) (s : string) :
  isASCII s = true -> ToLower lower s = lowerBytes s.
Proof. intros H. unfold ToLower. now rewrite H. Qed.

(** C6, amended: the guess works on the lower-cased user name, as
    [strings.ToLower] gives it (byte by byte for an ASCII name, through
    the Unicode tables otherwise): it is the empty string when the
    lower-cased name is one of root, admin, prod, dev, production (so
    for each of these names itself), and the lower-cased name otherwise,
    which is the literal user name when lower-casing leaves that
    unchanged. *)
Theorem guessStage_lowercased (lower : string -> string) (username : string) :
  let denylist := ["root"; "admin"; "prod"; "dev"; "production"] in
  (In (ToLower lower username) denylist ->
   guessStage lower (Some username) = "") /\
  (~ In (ToLower lower username) denylist ->
   guessStage lower (Some username) = ToLower lower username) /\
  (In username denylist -> guessStage lower (Some username) = "") /\
  (ToLower lower username = username -> ~ In username denylist ->
   guessStage lower (Some username) = username).
Proof.
  cbv zeta.
  assert (Hin : In (ToLower lower username)
                  ["root"; "admin"; "prod"; "dev"; "production"]
                -> guessStage lower (Some username) = "").
  { intros H. apply eqb_chain_In in H. unfold guessStage. now rewrite H. }
  assert (Hout : ~ In (ToLower lower username)
                     ["root"; "admin"; "prod"; "dev"; "production"]
                 -> guessStage lower (Some username) = ToLower lower username).
  { intros H. unfold guessStage.
    destruct (String.eqb (ToLower lower username) "root" || _ || _ || _ || _) eqn:E;
      [|reflexivity].
    exfalso. apply H. now apply eqb_chain_In. }
  split; [exact Hin|]. split; [exact Hout|]. split.
  - intros H. apply Hin. cbn in H.
    destruct H as [<-|[<-|[<-|[<-|[<-|[]]]]]]; cbn; tauto.
  - intros Hlow Hnot. rewrite <- Hlow at 2. apply Hout. now rewrite Hlow.
Qed.

Lemma guessStage_lowercased_witness :
  In (ToLower id "Admin") ["root"; "admin"; "prod"; "dev"; "production"] /\
  guessStage id (Some "Admin") = "" /\
  ~ In (ToLower id "Alice") ["root"; "admin"; "prod"; "dev"; "production"] /\
  guessStage id (Some "Alice") = "alice".
Proof.
  assert (H1 : In (ToLower id "Admin")
                 ["root"; "admin"; "prod"; "dev"; "production"])
    by (cbn; tauto).
  assert (H2 : ~ In (ToLower id "Alice")
                   ["root"; "admin"; "prod"; "dev"; "production"])
    by (cbn; intuition discriminate).
  split; [exact H1|]. split; [|split; [exact H2|]].
  - exact (proj1 (guessStage_lowercased id "Admin") H1).
  - exact (proj1 (proj2 (guessStage_lowercased id "Alice")) H2).
Defined.

(** When the user cannot be looked up, the guess is empty. *)
Lemma guessStage_no_user (lower : string -> string) :
  guessStage lower None = "".
Proof. reflexivity. Qed.




End StageFacts.

(* ===================================================================== *)
(** * Further properties of the dispatcher *)
(* ===================================================================== *)

Module DispatcherMore.

Import DispatcherFacts.

Lemma findChild_among (children : list Command) (arg : string) (c : Command) :
  findChild children arg = Some c -> In c children.
Proof.
  induction children as [|d rest IH]; cbn [findChild]; [discriminate|].
  destruct (String.eqb (Name d) arg).
  - intros [= <-]. now left.
  - intros H. right. now apply IH.
Qed.

Lemma findChild_self (children : list Command) (arg : string) (c : Command) :
  findChild children arg = Some c -> findChild children (Name c) = Some c.
Proof.
  intros H. now rewrite (findChild_Name children arg c H).
Qed.

Lemma resolve_path (osArgs : list string) :
  path (fst (resolve osArgs))
  = fst (walk [Root] (snd (fst (Parse (registerFlags Root ∅) osArgs)))).
Proof.
  unfold resolve. destruct (Parse (registerFlags Root ∅) osArgs) as [[fs fargs] e].
  cbn [fst snd]. destruct (walk [Root] fargs). reflexivity.
Qed.

Lemma resolve_arguments (osArgs : list string) :
  arguments (fst (resolve osArgs))
  = snd (walk [Root] (snd (fst (Parse (registerFlags Root ∅) osArgs)))).
Proof.
  unfold resolve. destruct (Parse (registerFlags Root ∅) osArgs) as [[fs fargs] e].
  cbn [fst snd]. destruct (walk [Root] fargs). reflexivity.
Qed.

(** The walk keeps the path a chain: each command is the child its
    predecessor finds under its name. *)
Lemma walk_chain (args : list string) : forall cmds : CommandPath,
  (forall pre p c post, cmds = pre ++ p :: c :: post ->
     findChild (Children p) (Name c) = Some c) ->
  forall pre p c post, fst (walk cmds args) = pre ++ p :: c :: post ->
    findChild (Children p) (Name c) = Some c.
Proof.
  induction args as [|arg rest IH]; intros cmds Hcmds; [exact Hcmds|].
  rewrite walk_cons.
  destruct (Children (lastCommand cmds)) as [|c0 ch] eqn:Ech; [exact Hcmds|].
  destruct (findChild (c0 :: ch) arg) as [cmd|] eqn:Ef; [|exact Hcmds].
  apply IH. intros pre p c post Heq.
  destruct post as [|x post'] using rev_ind.
  - change (pre ++ [p; c]) with (pre ++ [p] ++ [c]) in Heq.
    rewrite app_assoc in Heq. apply app_inj_tail in Heq as [-> <-].
    rewrite lastCommand_snoc in Ech. rewrite Ech.
    eapply findChild_self. exact Ef.
  - clear IHpost'.
    assert (Heq' : cmds ++ [cmd] = (pre ++ p :: c :: post') ++ [x]).
    { rewrite Heq. rewrite <- app_assoc. reflexivity. }
    apply app_inj_tail in Heq' as [-> _].
    eapply Hcmds. reflexivity.
Qed.

Lemma everywhere_here (P : Command -> bool) (c : Command) :
  everywhere P c = true -> P c = true.
Proof. destruct c. cbn. now intros [H _]%andb_true_iff. Qed.

Lemma everywhere_child (P : Command -> bool) (p d : Command) :
  everywhere P p = true -> In d (Children p) -> everywhere P d = true.
Proof.
  destruct p as [n h a f ch r]. cbn [everywhere Children].
  intros [_ H]%andb_true_iff Hin.
  rewrite forallb_forall in H. now apply H.
Qed.

Lemma lastCommand_everywhere (P : Command -> bool) (cmds : CommandPath) :
  everywhere P Root = true ->
  List.Forall (fun c => everywhere P c = true) cmds ->
  everywhere P (lastCommand cmds) = true.
Proof.
  intros Hroot Hall. unfold lastCommand.
  induction Hall as [|a l Ha Hl IH]; [exact Hroot|].
  destruct l as [|b l']; [exact Ha | exact IH].
Qed.

(** What holds everywhere in the tree holds along every path the walk
    builds. *)
Lemma walk_everywhere (P : Command -> bool) (args : list string) :
  everywhere P Root = true ->
  forall cmds : CommandPath,
    List.Forall (fun c => everywhere P c = true) cmds ->
    List.Forall (fun c => everywhere P c = true) (fst (walk cmds args)).
Proof.
  intros Hroot. induction args as [|arg rest IH]; intros cmds Hall; [exact Hall|].
  rewrite walk_cons.
  destruct (Children (lastCommand cmds)) as [|c0 ch] eqn:Ech; [exact Hall|].
  destruct (findChild (c0 :: ch) arg) as [cmd|] eqn:Ef; [|exact Hall].
  apply IH. apply List.Forall_app. split; [exact Hall|].
  constructor; [|constructor].
  apply (everywhere_child P (lastCommand cmds)).
  - now apply lastCommand_everywhere.
  - rewrite Ech. eapply findChild_among. exact Ef.
Qed.

Lemma resolve_last_everywhere (P : Command -> bool) (osArgs : list string) :
  everywhere P Root = true ->
  P (lastCommand (path (fst (resolve osArgs)))) = true.
Proof.
  intros Hroot. apply everywhere_here. apply lastCommand_everywhere; [exact Hroot|].
  rewrite resolve_path. apply walk_everywhere; [exact Hroot|].
  constructor; [exact Hroot | constructor].
Qed.

(** What a handler call at the end of [run] tells about the run. *)
Lemma run_HandlerCall_inv (g : Setup) (osArgs : list string) (h : Handler)
    (cli : Cli) :
  run g osArgs = HandlerCall h cli ->
  cli = fst (resolve osArgs) /\
  snd (resolve osArgs) = None /\
  setup g = None /\
  Run (lastCommand (path cli)) = Some h /\
  Cli_Bool cli "help" = Some false /\
  (requiredCount (lastCommand (path cli)) <= length (arguments cli))%nat.
Proof.
  rewrite run_unfold. destruct (resolve osArgs) as [cli0 perr]. cbn [fst snd].
  destruct perr; [discriminate|]. destruct (setup g); [discriminate|].
  unfold dispatch, Cli_PrintHelp.
  destruct (Cli_Bool cli0 "help") as [help|] eqn:Hhelp; [|discriminate].
  destruct help; cbn [orb]; [discriminate|].
  destruct (Run (lastCommand (path cli0))) as [h0|] eqn:Hrun; cbn [isNil orb];
    [|discriminate].
  destruct (Nat.ltb_spec (length (arguments cli0))
              (requiredCount (lastCommand (path cli0)))) as [Hlt|Hge];
    [discriminate|].
  intros [= <- <-]. repeat split; auto.
Qed.

(** The resolved path starts at the root and descends child by child:
    each command of the path is the first child of its predecessor that
    carries its name.  In particular the path is never empty. *)
Theorem resolve_path_is_chain (osArgs : list string) :
  exists below : list Command,
    path (fst (resolve osArgs)) = Root :: below /\
    forall pre p c post,
      path (fst (resolve osArgs)) = pre ++ p :: c :: post ->
      findChild (Children p) (Name c) = Some c /\ In c (Children p).
Proof.
  rewrite resolve_path.
  set (fargs := snd (fst (Parse (registerFlags Root ∅) osArgs))).
  destruct (walk_spec fargs [Root]) as (matched & Hp & _).
  exists matched. split; [exact Hp|].
  intros pre p c post Heq.
  assert (Hc : findChild (Children p) (Name c) = Some c).
  { apply (walk_chain fargs [Root]) with (pre := pre) (post := post); [|exact Heq].
    intros pre' p' c' post' H. destruct pre' as [|? [|? ?]]; discriminate. }
  split; [exact Hc|]. eapply findChild_among. exact Hc.
Qed.

(** A handler that [run] calls is the [Run] of the last command of the
    path, the help flag is off, and every required argument is there:
    [Positional] at an index below the number of required arguments is
    the token given at that position, not the empty default. *)
Theorem handler_gets_required_arguments (g : Setup) (osArgs : list string)
    (h : Handler) (cli : Cli) :
  run g osArgs = HandlerCall h cli ->
  Run (lastCommand (path cli)) = Some h /\
  Cli_Bool cli "help" = Some false /\
  forall i : nat, (i < requiredCount (lastCommand (path cli)))%nat ->
    exists token, arguments cli !! i = Some token /\
                  Cli_Positional cli (Z.of_nat i) = Some token.
Proof.
  intros Hrun.
  destruct (run_HandlerCall_inv g osArgs h cli Hrun) as (_ & _ & _ & Hr & Hh & Hn).
  split; [exact Hr|]. split; [exact Hh|].
  intros i Hi.
  destruct (lookup_lt_is_Some_2 (arguments cli) i ltac:(lia)) as [token Htok].
  exists token. split; [exact Htok|].
  unfold Cli_Positional.
  destruct (Z.geb_spec (Z.of_nat i) (Z.of_nat (length (arguments cli)))); [lia|].
  destruct (Z.ltb_spec (Z.of_nat i) 0); [lia|].
  now rewrite Nat2Z.id.
Qed.

Lemma handler_gets_required_arguments_witness :
  let argv := ["secret"; "set"; "Foo"; "bar"] in
  let g := mkSetup false None false None in
  run g argv = HandlerCall RunSecretSet (fst (resolve argv)) /\
  Cli_Positional (fst (resolve argv)) 0 = Some "Foo" /\
  Cli_Positional (fst (resolve argv)) 1 = Some "bar".
Proof.
  cbv zeta.
  assert (Hrun : run (mkSetup false None false None) ["secret"; "set"; "Foo"; "bar"]
                 = HandlerCall RunSecretSet (fst (resolve ["secret"; "set"; "Foo"; "bar"])))
    by (vm_compute; reflexivity).
  split; [exact Hrun|].
  destruct (handler_gets_required_arguments _ _ _ _ Hrun) as (_ & _ & Hpos).
  split.
  - destruct (Hpos 0%nat ltac:(vm_compute; lia)) as (token & Htok & Hp).
    change (Z.of_nat 0) with 0%Z in Hp. rewrite Hp, <- Htok. reflexivity.
  - destruct (Hpos 1%nat ltac:(vm_compute; lia)) as (token & Htok & Hp).
    change (Z.of_nat 1) with 1%Z in Hp. rewrite Hp, <- Htok. reflexivity.
Defined.

(** A handler only ever runs for a command without children, and then
    its positionals are all the tokens of [flag.Args()] after those that
    named the path: tokens dropped at a mismatch never reach a handler. *)
Theorem handler_runs_at_leaf (g : Setup) (osArgs : list string)
    (h : Handler) (cli : Cli) :
  run g osArgs = HandlerCall h cli ->
  Children (lastCommand (path cli)) = [] /\
  arguments cli
  = drop (length (path cli) - 1)
         (snd (fst (Parse (registerFlags Root ∅) osArgs))).
Proof.
  intros Hrun.
  destruct (run_HandlerCall_inv g osArgs h cli Hrun) as (-> & _ & _ & Hr & _ & _).
  pose proof (resolve_last_everywhere
    (fun c => match Children c with [] => true | _ :: _ => isNil (Run c) end)
    osArgs ltac:(vm_compute; reflexivity)) as Hleaf.
  cbv beta in Hleaf. rewrite Hr in Hleaf.
  destruct (Children (lastCommand (path (fst (resolve osArgs))))) as [|c0 ch] eqn:Ech;
    [|discriminate].
  split; [reflexivity|].
  rewrite resolve_path in Ech. rewrite resolve_arguments, resolve_path.
  set (fargs := snd (fst (Parse (registerFlags Root ∅) osArgs))) in *.
  destruct (walk_spec fargs [Root]) as (matched & Hp & _ & Hpos).
  rewrite Ech in Hpos. rewrite Hpos, Hp. cbn [app length Nat.sub].
  now rewrite Nat.sub_0_r.
Qed.

Lemma handler_runs_at_leaf_witness :
  let argv := ["dev"; "--verbose"; "next"; "dev"] in
  let g := mkSetup false None false None in
  run g argv = HandlerCall CmdDev (fst (resolve argv)) /\
  arguments (fst (resolve argv)) = ["next"; "dev"].
Proof.
  cbv zeta.
  assert (Hrun : run (mkSetup false None false None)
                   ["dev"; "--verbose"; "next"; "dev"]
                 = HandlerCall CmdDev
                     (fst (resolve ["dev"; "--verbose"; "next"; "dev"])))
    by (vm_compute; reflexivity).
  split; [exact Hrun|].
  rewrite (proj2 (handler_runs_at_leaf _ _ _ _ Hrun)).
  vm_compute. reflexivity.
Defined.

Lemma resolve_flag_kind (osArgs : list string) (name : string) (v : FlagValue) :
  registerFlags Root ∅ !! name = Some v ->
  exists v', flags (fst (resolve osArgs)) !! name = Some v'
             /\ sameKind v v' = true.
Proof.
  intros Hreg. rewrite resolve_flags. unfold Parse.
  exact (parseArgs_kinds (length osArgs) osArgs (registerFlags Root ∅) []
           (le_n _) name v Hreg).
Qed.

(** No flag read of the program panics, on any command line: [stage] and
    [parent] stay string flags and [help] and [verbose] stay bool flags
    through the parse. *)
Theorem flag_reads_never_panic (osArgs : list string) :
  let cli := fst (resolve osArgs) in
  is_Some (Cli_String cli "stage") /\
  is_Some (Cli_String cli "parent") /\
  is_Some (Cli_Bool cli "help") /\
  is_Some (Cli_Bool cli "verbose") /\
  forall (lower : string -> string) (cfgPath : string) (m : Machine),
    snd (getStage lower cli cfgPath m) <> TypePanic.
Proof.
  cbv zeta.
  destruct (resolve_flag_kind osArgs "stage" (StringValue "")
              ltac:(vm_compute; reflexivity)) as (vs & Hs & Ks).
  destruct (resolve_flag_kind osArgs "parent" (StringValue "")
              ltac:(vm_compute; reflexivity)) as (vp & Hp & Kp).
  destruct (resolve_flag_kind osArgs "help" (BoolValue false)
              ltac:(vm_compute; reflexivity)) as (vh & Hh & Kh).
  destruct (resolve_flag_kind osArgs "verbose" (BoolValue false)
              ltac:(vm_compute; reflexivity)) as (vv & Hv & Kv).
  unfold Cli_String, Cli_Bool, getStage, Cli_String. rewrite Hs, Hp, Hh, Hv.
  destruct vs as [s|?]; [|discriminate]. destruct vp as [p|?]; [|discriminate].
  destruct vh as [?|bh]; [discriminate|]. destruct vv as [?|bv]; [discriminate|].
  repeat split; eauto.
  intros lower cfgPath m.
  destruct (String.eqb s ""); [|discriminate].
  destruct (String.eqb (LoadPersonalStage m cfgPath) ""); [|discriminate].
  destruct (if String.eqb (guessStage lower (currentUser m)) "" then _ else _)
    as [prompts [[st rest]|]]; [|discriminate].
  destruct (SetPersonalStage _ cfgPath st) as [m' [err|]]; discriminate.
Qed.

(** [Positional] fails exactly on a negative index. *)
Theorem Positional_fails_iff_negative (cli : Cli) (index : Z) :
  Cli_Positional cli index = None <-> (index < 0)%Z.
Proof.
  unfold Cli_Positional.
  destruct (Z.geb_spec index (Z.of_nat (length (arguments cli)))) as [Hge|Hlt].
  - split; [discriminate | lia].
  - destruct (Z.ltb_spec index 0) as [Hneg|Hpos]; [tauto|].
    split; [|lia]. intros Hnone. apply lookup_ge_None in Hnone. lia.
Qed.

Lemma Positional_lookup (cli : Cli) (i : nat) (token : string) :
  arguments cli !! i = Some token ->
  Cli_Positional cli (Z.of_nat i) = Some token.
Proof.
  intros Htok. pose proof (lookup_lt_Some _ _ _ Htok) as Hlt.
  unfold Cli_Positional.
  destruct (Z.geb_spec (Z.of_nat i) (Z.of_nat (length (arguments cli)))); [lia|].
  destruct (Z.ltb_spec (Z.of_nat i) 0); [lia|].
  now rewrite Nat2Z.id.
Qed.

End DispatcherMore.

(* ===================================================================== *)
(** * Properties of flag registration *)
(* ===================================================================== *)

Module TreeFacts.

(** Registration walks the tree in the order of [treeFlags]. *)
Lemma registerFlags_flat (c : Command) : forall parsed : gmap string FlagValue,
  registerFlags c parsed = fold_left registerFlag (treeFlags c) parsed.
Proof.
  induction c as [c IH] using Command_tree_ind. intros parsed.
  destruct c as [n h a fl ch r]. cbn [registerFlags treeFlags Children] in *.
  rewrite fold_left_app. generalize (fold_left registerFlag fl parsed) as q.
  induction IH as [|d ch' Hd Hch IHch]; intros q; [reflexivity|].
  cbn [fold_left flat_map]. rewrite fold_left_app, Hd. apply IHch.
Qed.

Lemma registerFlag_other (parsed : gmap string FlagValue) (f : Flag)
    (name : string) :
  name <> flag_Name f -> registerFlag parsed f !! name = parsed !! name.
Proof.
  intros Hne. unfold registerFlag.
  destruct (String.eqb (flag_Type f) "string"),
           (String.eqb (flag_Type f) "bool");
    rewrite ?lookup_insert_ne by congruence; reflexivity.
Qed.

Lemma fold_registerFlag_other (l : list Flag) (name : string) :
  forall parsed : gmap string FlagValue,
  ~ In name (map flag_Name l) ->
  fold_left registerFlag l parsed !! name = parsed !! name.
Proof.
  induction l as [|f l IH]; intros parsed Hnot; [reflexivity|].
  cbn [fold_left]. rewrite IH.
  - apply registerFlag_other. intros ->. apply Hnot. now left.
  - intros Hin. apply Hnot. now right.
Qed.

(** In a tree that declares no flag name twice, [registerFlags] gives
    every string flag the default [""] and every bool flag the default
    [false], wherever in the tree it is declared; a flag of another type
    and every name the tree does not declare are left as they were. *)
Theorem registerFlags_defaults (c : Command) (parsed : gmap string FlagValue)
    (f : Flag) :
  NoDup (map flag_Name (treeFlags c)) ->
  In f (treeFlags c) ->
  (flag_Type f = "string" ->
   registerFlags c parsed !! flag_Name f = Some (StringValue "")) /\
  (flag_Type f = "bool" ->
   registerFlags c parsed !! flag_Name f = Some (BoolValue false)) /\
  (flag_Type f <> "string" -> flag_Type f <> "bool" ->
   registerFlags c parsed !! flag_Name f = parsed !! flag_Name f) /\
  (forall name, ~ In name (map flag_Name (treeFlags c)) ->
   registerFlags c parsed !! name = parsed !! name).
Proof.
  intros Hnodup Hin. rewrite registerFlags_flat.
  assert (Hother : forall name, ~ In name (map flag_Name (treeFlags c)) ->
            fold_left registerFlag (treeFlags c) parsed !! name = parsed !! name).
  { intros name Hnot. now apply fold_registerFlag_other. }
  enough (H3 :
    (flag_Type f = "string" ->
     fold_left registerFlag (treeFlags c) parsed !! flag_Name f
     = Some (StringValue "")) /\
    (flag_Type f = "bool" ->
     fold_left registerFlag (treeFlags c) parsed !! flag_Name f
     = Some (BoolValue false)) /\
    (flag_Type f <> "string" -> flag_Type f <> "bool" ->
     fold_left registerFlag (treeFlags c) parsed !! flag_Name f
     = parsed !! flag_Name f))
    by (destruct H3 as (A & B & C); repeat split; auto).
  clear Hother.
  apply in_split in Hin as (l1 & l2 & Heq). rewrite Heq in Hnodup |- *.
  rewrite map_app in Hnodup. cbn [map] in Hnodup.
  apply NoDup_ListNoDup in Hnodup.
  pose proof (List.NoDup_remove_2 _ _ _ Hnodup) as Hfresh.
  rewrite in_app_iff in Hfresh.
  rewrite fold_left_app. cbn [fold_left].
  assert (Hstep : forall q,
            fold_left registerFlag l2 (registerFlag q f) !! flag_Name f
            = registerFlag q f !! flag_Name f).
  { intros q. apply fold_registerFlag_other. tauto. }
  assert (Hpre : fold_left registerFlag l1 parsed !! flag_Name f
                 = parsed !! flag_Name f).
  { apply fold_registerFlag_other. tauto. }
  rewrite Hstep. unfold registerFlag.
  split; [|split].
  - intros ->. cbn. apply lookup_insert_eq.
  - intros ->. cbn. apply lookup_insert_eq.
  - intros Hs Hb. apply String.eqb_neq in Hs, Hb. rewrite Hs, Hb. exact Hpre.
Qed.

(** The [parent] flag of [import-unstable], registered from the root. *)
Lemma registerFlags_defaults_witness :
  NoDup (map flag_Name (treeFlags Root)) /\
  In (mkFlag "parent" "string") (treeFlags Root) /\
  registerFlags Root ∅ !! "parent" = Some (StringValue "").
Proof.
  assert (Hnodup : NoDup (map flag_Name (treeFlags Root)))
    by (apply (bool_decide_unpack _); vm_compute; reflexivity).
  assert (Hin : In (mkFlag "parent" "string") (treeFlags Root))
    by (cbn; tauto).
  split; [exact Hnodup|]. split; [exact Hin|].
  exact (proj1 (registerFlags_defaults Root ∅ (mkFlag "parent" "string")
                  Hnodup Hin) eq_refl).
Defined.

End TreeFacts.

(* ===================================================================== *)
(** * Properties of the help layout *)
(* ===================================================================== *)

Module HelpFacts.

Lemma length_append (a b : string) :
  String.length (a ++ b) = (String.length a + String.length b)%nat.
Proof.
  induction a as [|c a IH]; [reflexivity|].
  change (S (String.length (a ++ b)) = S (String.length a + String.length b)).
  now rewrite IH.
Qed.

Lemma Join_two (a b sep : string) : Join [a; b] sep = (a ++ sep ++ b)%string.
Proof. reflexivity. Qed.

Lemma subcommandLabel_length (child : Command) :
  String.length (subcommandLabel child) = subcommandWidth child.
Proof.
  unfold subcommandLabel, subcommandWidth.
  destruct (0 <? length (Args child))%nat; [|reflexivity].
  rewrite Join_two, !length_append. cbn [String.length]. lia.
Qed.

Lemma maxSubcommand_step_bounds (children : list Command) : forall m : nat,
  let result :=
    fold_left
      (fun m child =>
         if Hidden child then m
         else
           let next := subcommandWidth child in
           if (m <? next)%nat then next else m)
      children m in
  (m <= result)%nat /\
  (forall child, In child children -> Hidden child = false ->
     (subcommandWidth child <= result)%nat) /\
  (result = m \/
   exists child, In child children /\ Hidden child = false /\
                 subcommandWidth child = result).
Proof.
  induction children as [|c rest IH]; intros m result; subst result.
  - cbn. split; [lia|]. split; [tauto | now left].
  - cbn [fold_left].
    match goal with |- context [fold_left _ rest ?x] => set (m' := x) end.
    destruct (IH m') as (Hge & Hall & Htight). cbv zeta in *.
    assert (Hm : (m <= m')%nat /\
                 (Hidden c = false -> (subcommandWidth c <= m')%nat) /\
                 (m' = m \/ (Hidden c = false /\ subcommandWidth c = m'))).
    { unfold m'. destruct (Hidden c).
      - split; [lia|]. split; [discriminate | now left].
      - destruct (Nat.ltb_spec m (subcommandWidth c)).
        + split; [lia|]. split; [lia | now right].
        + split; [lia|]. split; [lia | now left]. }
    clearbody m'. destruct Hm as (Hm & Hc & Hcase).
    split; [lia|]. split.
    + intros child [<-|Hin] Hvis.
      * specialize (Hc Hvis). lia.
      * now apply Hall.
    + destruct Htight as [Heq|(child & Hin & Hvis & Hw)].
      * rewrite Heq. destruct Hcase as [->|[Hvis Hw]]; [now left|].
        right. exists c. split; [now left|]. now split.
      * right. exists child. split; [now right|]. now split.
Qed.

(** The subcommand column of the help is wide enough: the label of every
    child that is not hidden has exactly the width the loop counted for
    it, which is at most [maxSubcommand]; and the column is no wider than
    needed, some visible child fills it unless it has width 0. *)
Theorem help_subcommand_column (children : list Command) :
  (forall child, In child children -> Hidden child = false ->
     (String.length (subcommandLabel child) <= maxSubcommand children)%nat) /\
  (maxSubcommand children = 0%nat \/
   exists child, In child children /\ Hidden child = false /\
                 String.length (subcommandLabel child) = maxSubcommand children).
Proof.
  destruct (maxSubcommand_step_bounds children 0) as (_ & Hall & Htight).
  split.
  - intros child Hin Hvis. rewrite subcommandLabel_length. now apply Hall.
  - destruct Htight as [Heq|(child & Hin & Hvis & Hw)]; [now left|].
    right. exists child. rewrite subcommandLabel_length. auto.
Qed.

Lemma help_subcommand_column_witness :
  In secretSetCommand (Children secretCommand) /\
  Hidden secretSetCommand = false /\
  subcommandLabel secretSetCommand = "set <name> <value>" /\
  (String.length (subcommandLabel secretSetCommand)
   <= maxSubcommand (Children secretCommand))%nat.
Proof.
  assert (Hin : In secretSetCommand (Children secretCommand)) by (cbn; tauto).
  split; [exact Hin|]. split; [reflexivity|]. split; [reflexivity|].
  exact (proj1 (help_subcommand_column (Children secretCommand))
           secretSetCommand Hin eq_refl).
Defined.

Lemma maxFlag_inner_bounds (fl : list Flag) : forall m : nat,
  let result :=
    fold_left
      (fun m f =>
         let l := (String.length (flag_Name f) + 3)%nat in
         if (m <? l)%nat then l else m)
      fl m in
  (m <= result)%nat /\
  forall f, In f fl -> (String.length (flag_Name f) + 3 <= result)%nat.
Proof.
  induction fl as [|f0 rest IH]; intros m result; subst result.
  - cbn. split; [lia | tauto].
  - cbn [fold_left].
    match goal with |- context [fold_left _ rest ?x] => set (m' := x) end.
    destruct (IH m') as (Hge & Hall). cbv zeta in *.
    assert (Hm : (m <= m' /\ String.length (flag_Name f0) + 3 <= m')%nat).
    { unfold m'. destruct (Nat.ltb_spec m (String.length (flag_Name f0) + 3)); lia. }
    clearbody m'.
    split; [lia|]. intros f [<-|Hin]; [lia | now apply Hall].
Qed.

Lemma maxFlag_outer_bounds (c : CommandPath) : forall m : nat,
  let result :=
    fold_left
      (fun m cmd =>
         fold_left
           (fun m f =>
              let l := (String.length (flag_Name f) + 3)%nat in
              if (m <? l)%nat then l else m)
           (Flags cmd) m)
      c m in
  (m <= result)%nat /\
  forall cmd f, In cmd c -> In f (Flags cmd) ->
    (String.length (flag_Name f) + 3 <= result)%nat.
Proof.
  induction c as [|cmd0 rest IH]; intros m result; subst result.
  - cbn. split; [lia | tauto].
  - cbn [fold_left].
    destruct (maxFlag_inner_bounds (Flags cmd0) m) as (Hge0 & Hall0).
    match goal with |- context [fold_left _ rest ?x] => set (m' := x) in * end.
    destruct (IH m') as (Hge & Hall). cbv zeta in *.
    split; [lia|]. intros cmd f [<-|Hin] Hf.
    + specialize (Hall0 f Hf). lia.
    + now apply (Hall cmd).
Qed.

(** The flag column of the usage help fits every flag of every command
    on the path: each name with its three extra columns is at most
    [maxFlag]. *)
Theorem help_flag_column (c : CommandPath) (cmd : Command) (f : Flag) :
  In cmd c -> In f (Flags cmd) ->
  (String.length (flag_Name f) + 3 <= maxFlag c)%nat.
Proof.
  intros Hcmd Hf.
  exact (proj2 (maxFlag_outer_bounds c 0) cmd f Hcmd Hf).
Qed.

Lemma help_flag_column_witness :
  In Root [Root; secretCommand] /\
  In (mkFlag "verbose" "bool") (Flags Root) /\
  (String.length "verbose" + 3 <= maxFlag [Root; secretCommand])%nat.
Proof.
  assert (H1 : In Root [Root; secretCommand]) by (cbn; tauto).
  assert (H2 : In (mkFlag "verbose" "bool") (Flags Root)) by (cbn; tauto).
  split; [exact H1|]. split; [exact H2|].
  exact (help_flag_column [Root; secretCommand] Root (mkFlag "verbose" "bool") H1 H2).
Defined.

End HelpFacts.

(* ===================================================================== *)
(** * Further properties of the handlers *)
(* ===================================================================== *)

Module HandlerMore.

Ltac run_fn :=
  unfold execFn, mbind, Fn_bind, call, defer, return_; cbn.

Ltac run_stack :=
  unfold execStack, mbind, StackFn_bind, scall, sdefer, sreturn; cbn.

(** The stored secrets after a successful [secret set]. *)
Lemma secretSet_store (w : World) (cli : Cli) (store : gmap string string)
    (app : App) (key value : string) :
  initProject_result w = inr app ->
  GetSecrets_error w = None ->
  PutSecrets_error w = None ->
  Cli_Positional cli 0 = Some key ->
  Cli_Positional cli 1 = Some value ->
  execFn (secretSetRun w cli) store
  = ([CallInitProject; CallGetSecrets; CallPutSecrets (<[key := value]> store);
      CallUiSuccess ("Set " ++ quote ++ key ++ quote ++ " for stage "
                     ++ quote ++ app_Stage app ++ quote);
      CallCleanup],
     <[key := value]> store, None).
Proof.
  intros Hinit Hget Hput Hkey Hval.
  unfold secretSetRun, GetSecrets, PutSecrets. run_fn.
  rewrite Hinit. cbn. rewrite Hget. cbn. rewrite Hkey, Hval. cbn.
  rewrite Hput. cbn. reflexivity.
Qed.

(** The stored secrets after a successful [secret remove]. *)
Lemma secretRemove_store (w : World) (cli : Cli) (store : gmap string string)
    (app : App) (key value : string) :
  initProject_result w = inr app ->
  GetSecrets_error w = None ->
  PutSecrets_error w = None ->
  Cli_Positional cli 0 = Some key ->
  store !! key = Some value ->
  snd (fst (execFn (secretRemoveRun w cli) store)) = delete key store /\
  snd (execFn (secretRemoveRun w cli) store) = None.
Proof.
  intros Hinit Hget Hput Hkey Hpresent.
  unfold secretRemoveRun, GetSecrets, PutSecrets. run_fn.
  rewrite Hinit. cbn. rewrite Hget. cbn. rewrite Hkey. cbn.
  rewrite Hpresent. cbn. rewrite Hput. cbn. split; reflexivity.
Qed.

(** What [secret remove] answers for a key that is not stored. *)
Lemma secretRemove_absent (w : World) (cli : Cli) (store : gmap string string)
    (app : App) (key : string) :
  initProject_result w = inr app ->
  GetSecrets_error w = None ->
  Cli_Positional cli 0 = Some key ->
  store !! key = None ->
  execFn (secretRemoveRun w cli) store
  = ([CallInitProject; CallGetSecrets; CallCleanup], store,
     Some (ReadableError None
       ("Secret " ++ quote ++ key ++ quote ++ " does not exist for stage "
        ++ quote ++ app_Stage app ++ quote))).
Proof.
  intros Hinit Hget Hkey Habsent. unfold secretRemoveRun, GetSecrets. run_fn.
  rewrite Hinit. cbn. rewrite Hget. cbn. rewrite Hkey. cbn.
  rewrite Habsent. reflexivity.
Qed.

(** After a successful [secret set], the key reads back the value given,
    whatever was stored under it before, and every other secret is as it
    was. *)
Theorem secretSet_then_lookup (w : World) (cli : Cli)
    (store : gmap string string) (app : App) (key value : string) :
  initProject_result w = inr app ->
  GetSecrets_error w = None ->
  PutSecrets_error w = None ->
  Cli_Positional cli 0 = Some key ->
  Cli_Positional cli 1 = Some value ->
  let stored := snd (fst (execFn (secretSetRun w cli) store)) in
  snd (execFn (secretSetRun w cli) store) = None /\
  stored !! key = Some value /\
  forall other, other <> key -> stored !! other = store !! other.
Proof.
  intros Hinit Hget Hput Hkey Hval stored. subst stored.
  rewrite (secretSet_store w cli store app key value Hinit Hget Hput Hkey Hval).
  cbn [fst snd]. split; [reflexivity|]. split.
  - apply lookup_insert_eq.
  - intros other Hne. now apply lookup_insert_ne.
Qed.

Lemma secretSet_then_lookup_witness :
  let w := mkWorld (inr (mkApp "app" "dev")) None (inr "") None "" None None
             None None None None in
  let cli := mkCli ∅ ["Foo"; "bar"] [Root] in
  let store : gmap string string := {["Foo" := "old"]} in
  Cli_Positional cli 0 = Some "Foo" /\
  Cli_Positional cli 1 = Some "bar" /\
  snd (fst (execFn (secretSetRun w cli) store)) !! "Foo" = Some "bar".
Proof.
  cbv zeta. split; [reflexivity|]. split; [reflexivity|].
  exact (proj1 (proj2 (secretSet_then_lookup
    (mkWorld (inr (mkApp "app" "dev")) None (inr "") None "" None None
       None None None None)
    (mkCli ∅ ["Foo"; "bar"] [Root]) {["Foo" := "old"]} (mkApp "app" "dev")
    "Foo" "bar" eq_refl eq_refl eq_refl eq_refl eq_refl))).
Defined.

(** When the two handlers write: [secret set] calls [PutSecrets] exactly
    when the project initialised and [GetSecrets] succeeded, and then
    with the fetched secrets updated at the key; [secret remove] calls
    it exactly when, in addition, the fetched secrets have the key, and
    then with the fetched secrets less the key.  On every other path
    neither calls [PutSecrets] at all. *)
Theorem secrets_written_exactly_when (w : World) (cli : Cli)
    (store written : gmap string string) (key value : string) :
  Cli_Positional cli 0 = Some key ->
  Cli_Positional cli 1 = Some value ->
  (In (CallPutSecrets written) (fst (fst (execFn (secretSetRun w cli) store)))
   <-> (exists app, initProject_result w = inr app) /\
       GetSecrets_error w = None /\
       written = <[key := value]> store) /\
  (In (CallPutSecrets written) (fst (fst (execFn (secretRemoveRun w cli) store)))
   <-> (exists app, initProject_result w = inr app) /\
       GetSecrets_error w = None /\
       is_Some (store !! key) /\
       written = delete key store).
Proof.
  intros Hkey Hval. split.
  - unfold secretSetRun, GetSecrets, PutSecrets. run_fn. rewrite Hkey, Hval. cbn.
    destruct (initProject_result w) as [e|app]; cbn.
    { split; [intuition discriminate|]. intros ([app [=]] & _). }
    destruct (GetSecrets_error w) as [e|]; cbn.
    { split; [intuition discriminate|]. intros (_ & [=] & _). }
    destruct (PutSecrets_error w) as [e|]; cbn.
    + split.
      * intros [H|[H|[[= <-]|[H|[]]]]]; try discriminate.
        split; [now exists app|]. now split.
      * intros (_ & _ & ->). tauto.
    + split.
      * intros [H|[H|[[= <-]|[H|[H|[]]]]]]; try discriminate.
        split; [now exists app|]. now split.
      * intros (_ & _ & ->). tauto.
  - unfold secretRemoveRun, GetSecrets, PutSecrets. run_fn. rewrite Hkey. cbn.
    destruct (initProject_result w) as [e|app]; cbn.
    { split; [intuition discriminate|]. intros ([app [=]] & _). }
    destruct (GetSecrets_error w) as [e|]; cbn.
    { split; [intuition discriminate|]. intros (_ & [=] & _). }
    destruct (store !! key) as [v|] eqn:Hlook; cbn.
    2:{ split; [intuition discriminate|]. intros (_ & _ & [v [=]] & _). }
    destruct (PutSecrets_error w) as [e|]; cbn.
    + split.
      * intros [H|[H|[[= <-]|[H|[]]]]]; try discriminate.
        split; [now exists app|]. split; [reflexivity|]. split; [now exists v|].
        reflexivity.
      * intros (_ & _ & _ & ->). tauto.
    + split.
      * intros [H|[H|[[= <-]|[H|[H|[]]]]]]; try discriminate.
        split; [now exists app|]. split; [reflexivity|]. split; [now exists v|].
        reflexivity.
      * intros (_ & _ & _ & ->). tauto.
Qed.

(** [secret remove Foo] on a store without [Foo]: nothing is put. *)
Lemma secrets_written_exactly_when_witness :
  let w := mkWorld (inr (mkApp "app" "dev")) None (inr "") None "" None None
             None None None None in
  let cli := mkCli ∅ ["Foo"; "bar"] [Root] in
  let store : gmap string string := {["Bar" := "1"]} in
  Cli_Positional cli 0 = Some "Foo" /\
  Cli_Positional cli 1 = Some "bar" /\
  In (CallPutSecrets (<["Foo" := "bar"]> store))
     (fst (fst (execFn (secretSetRun w cli) store))) /\
  forall written,
    ~ In (CallPutSecrets written)
         (fst (fst (execFn (secretRemoveRun w cli) store))).
Proof.
  cbv zeta. split; [reflexivity|]. split; [reflexivity|]. split.
  - apply (proj1 (secrets_written_exactly_when
      (mkWorld (inr (mkApp "app" "dev")) None (inr "") None "" None None
         None None None None)
      (mkCli ∅ ["Foo"; "bar"] [Root]) {["Bar" := "1"]} _ "Foo" "bar"
      eq_refl eq_refl)).
    split; [now exists (mkApp "app" "dev")|]. now split.
  - intros written Hin.
    apply (proj2 (secrets_written_exactly_when
      (mkWorld (inr (mkApp "app" "dev")) None (inr "") None "" None None
         None None None None)
      (mkCli ∅ ["Foo"; "bar"] [Root]) {["Bar" := "1"]} written "Foo" "bar"
      eq_refl eq_refl)) in Hin.
    destruct Hin as (_ & _ & [v Hv] & _). vm_compute in Hv. discriminate.
Defined.

(** Setting a secret that was not stored and then removing it gives back
    the stored secrets as they were before. *)
Theorem secretSet_then_remove (w : World) (setCli removeCli : Cli)
    (store : gmap string string) (app : App) (key value : string) :
  initProject_result w = inr app ->
  GetSecrets_error w = None ->
  PutSecrets_error w = None ->
  Cli_Positional setCli 0 = Some key ->
  Cli_Positional setCli 1 = Some value ->
  Cli_Positional removeCli 0 = Some key ->
  store !! key = None ->
  let afterSet := snd (fst (execFn (secretSetRun w setCli) store)) in
  snd (execFn (secretRemoveRun w removeCli) afterSet) = None /\
  snd (fst (execFn (secretRemoveRun w removeCli) afterSet)) = store.
Proof.
  intros Hinit Hget Hput Hkey Hval Hkey' Habsent afterSet. subst afterSet.
  rewrite (secretSet_store w setCli store app key value Hinit Hget Hput Hkey Hval).
  cbn [fst snd].
  destruct (secretRemove_store w removeCli (<[key := value]> store) app key value
              Hinit Hget Hput Hkey' (lookup_insert_eq _ _ _)) as (Hstore & Hres).
  split; [exact Hres|]. rewrite Hstore. now apply delete_insert_id.
Qed.

Lemma secretSet_then_remove_witness :
  let w := mkWorld (inr (mkApp "app" "dev")) None (inr "") None "" None None
             None None None None in
  let store : gmap string string := {["Bar" := "1"]} in
  store !! "Foo" = None /\
  snd (fst (execFn (secretRemoveRun w (mkCli ∅ ["Foo"] [Root]))
              (snd (fst (execFn (secretSetRun w (mkCli ∅ ["Foo"; "x"] [Root]))
                           store)))))
  = store.
Proof.
  cbv zeta. split; [reflexivity|].
  exact (proj2 (secretSet_then_remove
    (mkWorld (inr (mkApp "app" "dev")) None (inr "") None "" None None
       None None None None)
    (mkCli ∅ ["Foo"; "x"] [Root]) (mkCli ∅ ["Foo"] [Root]) {["Bar" := "1"]}
    (mkApp "app" "dev") "Foo" "x"
    eq_refl eq_refl eq_refl eq_refl eq_refl eq_refl eq_refl)).
Defined.

(** Removing a stored secret twice: the first [secret remove] deletes
    it, the second reports that it does not exist and changes nothing. *)
Theorem secretRemove_twice (w : World) (cli : Cli)
    (store : gmap string string) (app : App) (key value : string) :
  initProject_result w = inr app ->
  GetSecrets_error w = None ->
  PutSecrets_error w = None ->
  Cli_Positional cli 0 = Some key ->
  store !! key = Some value ->
  let afterFirst := snd (fst (execFn (secretRemoveRun w cli) store)) in
  afterFirst = delete key store /\
  execFn (secretRemoveRun w cli) afterFirst
  = ([CallInitProject; CallGetSecrets; CallCleanup], afterFirst,
     Some (ReadableError None
       ("Secret " ++ quote ++ key ++ quote ++ " does not exist for stage "
        ++ quote ++ app_Stage app ++ quote))).
Proof.
  intros Hinit Hget Hput Hkey Hpresent afterFirst. subst afterFirst.
  destruct (secretRemove_store w cli store app key value
              Hinit Hget Hput Hkey Hpresent) as (Hstore & _).
  rewrite Hstore. split; [reflexivity|].
  apply secretRemove_absent; auto. apply lookup_delete_eq.
Qed.

Lemma secretRemove_twice_witness :
  let w := mkWorld (inr (mkApp "app" "dev")) None (inr "") None "" None None
             None None None None in
  let cli := mkCli ∅ ["Foo"] [Root] in
  let store : gmap string string := {["Foo" := "1"]} in
  store !! "Foo" = Some "1" /\
  snd (fst (execFn (secretRemoveRun w cli) store)) = delete "Foo" store.
Proof.
  cbv zeta. split; [reflexivity|].
  exact (proj1 (secretRemove_twice
    (mkWorld (inr (mkApp "app" "dev")) None (inr "") None "" None None
       None None None None)
    (mkCli ∅ ["Foo"] [Root]) {["Foo" := "1"]} (mkApp "app" "dev") "Foo" "1"
    eq_refl eq_refl eq_refl eq_refl eq_refl)).
Defined.

(** When [Stack.Cancel] fails, [unlock] returns a readable error whose
    message is empty, after the project cleanup; [main] then exits with
    code 1 and shows no error line (when the error is reported as it
    is). *)
Theorem unlock_failure_is_silent (TransformError : error -> error)
    (w : StackWorld) (app : App) (e : error) :
  s_initProject w = inr app ->
  s_Cancel w = Some e ->
  TransformError (ReadableError (Some e) "") = ReadableError (Some e) "" ->
  execStack (unlockRun w)
  = ([SInitProject; SCancel; SCleanup], Some (ReadableError (Some e) "")) /\
  main TransformError (snd (execStack (unlockRun w)))
  = ([Track "cli.start"; Track "cli.error";
      SlogError (ReadableError (Some e) "")], 1%Z).
Proof.
  intros Hinit Hcancel Hid.
  assert (Hrun : execStack (unlockRun w)
                 = ([SInitProject; SCancel; SCleanup],
                    Some (ReadableError (Some e) ""))).
  { unfold unlockRun. run_stack. rewrite Hinit. cbn. rewrite Hcancel. reflexivity. }
  split; [exact Hrun|]. rewrite Hrun. cbn [snd]. unfold main. rewrite Hid.
  reflexivity.
Qed.

Lemma unlock_failure_is_silent_witness :
  let w := mkStackWorld (inr (mkApp "app" "dev"))
             (Some (OtherError "no lock")) None in
  s_initProject w = inr (mkApp "app" "dev") /\
  s_Cancel w = Some (OtherError "no lock") /\
  main (fun e => e) (snd (execStack (unlockRun w)))
  = ([Track "cli.start"; Track "cli.error";
      SlogError (ReadableError (Some (OtherError "no lock")) "")], 1%Z).
Proof.
  cbv zeta. split; [reflexivity|]. split; [reflexivity|].
  exact (proj2 (unlock_failure_is_silent (fun e => e)
    (mkStackWorld (inr (mkApp "app" "dev")) (Some (OtherError "no lock")) None)
    (mkApp "app" "dev") (OtherError "no lock") eq_refl eq_refl eq_refl)).
Defined.

(** Whenever [run] calls the [import-unstable] handler, the handler does
    not panic, and once the project is initialised it calls
    [Stack.Import] with the first three positionals as type, name and id
    and the value of [--parent], then cleans up and returns the import's
    result. *)
Theorem import_gets_its_arguments (g : Setup) (osArgs : list string)
    (cli : Cli) (w : StackWorld) (app : App) :
  run g osArgs = HandlerCall RunImportUnstable cli ->
  s_initProject w = inr app ->
  exists (type name id parent : string) (rest : list string),
    arguments cli = type :: name :: id :: rest /\
    Cli_String cli "parent" = Some parent /\
    importUnstableRun w cli
    = Some ([SInitProject; SImport type name id parent; SCleanup], s_Import w).
Proof.
  intros Hrun Hinit.
  destruct (DispatcherMore.run_HandlerCall_inv g osArgs _ cli Hrun)
    as (Hcli & _ & _ & Hr & _ & Hn).
  pose proof (DispatcherMore.resolve_last_everywhere
    (fun c => match Run c with
              | Some RunImportUnstable => (requiredCount c =? 3)%nat
              | _ => true
              end)
    osArgs ltac:(vm_compute; reflexivity)) as Hthree.
  cbv beta in Hthree. rewrite <- Hcli, Hr in Hthree.
  apply Nat.eqb_eq in Hthree. rewrite Hthree in Hn.
  destruct (arguments cli) as [|type [|name [|id rest]]] eqn:Hargs;
    cbn in Hn; try lia.
  destruct (DispatcherMore.resolve_flag_kind osArgs "parent" (StringValue "")
              ltac:(vm_compute; reflexivity)) as (vp & Hp & Kp).
  rewrite <- Hcli in Hp. destruct vp as [parent|?]; [|discriminate].
  exists type, name, id, parent, rest. split; [reflexivity|].
  assert (Hparent : Cli_String cli "parent" = Some parent)
    by (unfold Cli_String; now rewrite Hp).
  split; [exact Hparent|].
  assert (H0 : Cli_Positional cli 0 = Some type)
    by (apply (DispatcherMore.Positional_lookup cli 0); now rewrite Hargs).
  assert (H1 : Cli_Positional cli 1 = Some name)
    by (apply (DispatcherMore.Positional_lookup cli 1); now rewrite Hargs).
  assert (H2 : Cli_Positional cli 2 = Some id)
    by (apply (DispatcherMore.Positional_lookup cli 2); now rewrite Hargs).
  unfold importUnstableRun. rewrite Hparent, H0, H1, H2.
  run_stack. rewrite Hinit. cbn. destruct (s_Import w); reflexivity.
Qed.

Lemma import_gets_its_arguments_witness :
  let argv := ["import-unstable"; "aws:s3/bucket:Bucket"; "MyBucket";
               "bucket-123"; "--parent=urn"] in
  let w := mkStackWorld (inr (mkApp "app" "dev")) None None in
  run (mkSetup false None false None) argv
  = HandlerCall RunImportUnstable (fst (resolve argv)) /\
  importUnstableRun w (fst (resolve argv))
  = Some ([SInitProject;
           SImport "aws:s3/bucket:Bucket" "MyBucket" "bucket-123" "urn";
           SCleanup], None).
Proof.
  cbv zeta.
  assert (Hrun : run (mkSetup false None false None)
                   ["import-unstable"; "aws:s3/bucket:Bucket"; "MyBucket";
                    "bucket-123"; "--parent=urn"]
                 = HandlerCall RunImportUnstable
                     (fst (resolve ["import-unstable"; "aws:s3/bucket:Bucket";
                                    "MyBucket"; "bucket-123"; "--parent=urn"])))
    by (vm_compute; reflexivity).
  split; [exact Hrun|].
  destruct (import_gets_its_arguments _ _ _
              (mkStackWorld (inr (mkApp "app" "dev")) None None)
              (mkApp "app" "dev") Hrun eq_refl)
    as (type & name & id & parent & rest & Hargs & Hparent & Himport).
  rewrite Himport.
  assert (Ha : arguments (fst (resolve ["import-unstable"; "aws:s3/bucket:Bucket";
                                        "MyBucket"; "bucket-123"; "--parent=urn"]))
               = ["aws:s3/bucket:Bucket"; "MyBucket"; "bucket-123"])
    by (vm_compute; reflexivity).
  assert (Hp : Cli_String (fst (resolve ["import-unstable"; "aws:s3/bucket:Bucket";
                                         "MyBucket"; "bucket-123"; "--parent=urn"]))
                 "parent" = Some "urn")
    by (vm_compute; reflexivity).
  rewrite Ha in Hargs. rewrite Hp in Hparent.
  injection Hargs as <- <- <- _. injection Hparent as <-. reflexivity.
Defined.

End HandlerMore.

(* ===================================================================== *)
(** * Properties of [upgrade], [shell] and of help at the process level *)
(* ===================================================================== *)

Module ProcessMore.

Lemma substring_all (s : string) : String.substring 0 (String.length s) s = s.
Proof. induction s as [|c s IH]; cbn; [reflexivity | now rewrite IH]. Qed.

Lemma TrimPrefix_v (rest : string) : TrimPrefix (String "v" rest) "v" = rest.
Proof.
  unfold TrimPrefix. cbn [String.prefix].
  destruct (ascii_dec "v" "v") as [_|Hne]; [|now contradiction Hne].
  assert (Hp : String.prefix "" rest = true) by now destruct rest.
  rewrite Hp. cbn [String.length String.substring Nat.sub].
  rewrite Nat.sub_0_r. apply substring_all.
Qed.

Lemma prefix_v_true (s : string) :
  String.prefix "v" s = true -> exists rest, s = String "v" rest.
Proof.
  destruct s as [|c rest]; cbn [String.prefix]; [discriminate|].
  destruct (ascii_dec "v" c) as [<-|_]; [|discriminate].
  intros _. now exists rest.
Qed.

(** What [upgrade] reports is decided by the returned version less one
    leading [v]: "already on latest" when that is the running version,
    and otherwise an upgrade from the running version to it.  So it
    reports "already on latest" exactly when the returned version is the
    running version with a [v] in front, or is the running version
    itself and does not start with [v]. *)
Theorem upgrade_report (version newVersion : string) :
  (exists shown : string,
     (newVersion = String "v" shown \/
      (String.prefix "v" newVersion = false /\ newVersion = shown)) /\
     upgradeReport version newVersion
     = if String.eqb shown version then AlreadyOnLatest version
       else Upgraded version shown) /\
  (upgradeReport version newVersion = AlreadyOnLatest version <->
   newVersion = String "v" version \/
   (String.prefix "v" newVersion = false /\ newVersion = version)).
Proof.
  unfold upgradeReport.
  destruct (String.prefix "v" newVersion) eqn:Hp.
  - apply prefix_v_true in Hp as Hv. destruct Hv as [rest ->].
    rewrite TrimPrefix_v. split.
    + exists rest. split; [now left | reflexivity].
    + destruct (String.eqb_spec rest version) as [->|Hne].
      * split; [intros _; now left | reflexivity].
      * split; [discriminate|].
        intros [[= H]|[H _]]; [now contradiction Hne | discriminate].
  - unfold TrimPrefix. rewrite Hp. split.
    + exists newVersion. split; [now right | reflexivity].
    + destruct (String.eqb_spec newVersion version) as [->|Hne].
      * split; [intros _; now right | reflexivity].
      * split; [discriminate|].
        intros [->|[_ H]]; [|now contradiction Hne].
        cbn [String.prefix] in Hp.
        destruct (ascii_dec "v" "v") as [_|Hn]; [|now contradiction Hn].
        now destruct version.
Qed.

Lemma shell_words (Fields : string -> list string) (arguments : list string) :
  forall acc : list string,
  fold_left (fun args arg => args ++ Fields arg) arguments acc
  = acc ++ flat_map Fields arguments.
Proof.
  induction arguments as [|a rest IH]; intros acc; cbn [fold_left flat_map].
  - now rewrite app_nil_r.
  - rewrite IH. now rewrite <- app_assoc.
Qed.

(** [shell] always has a program to run, however [strings.Fields]
    splits: the words of the positionals in order, the first being the
    program, and [sh] without arguments when the positionals have no
    word at all (none given, or only blank ones). *)
Theorem shell_always_has_a_program (Fields : string -> list string)
    (arguments : list string) :
  exists (program : string) (rest : list string),
    shellCommand Fields arguments = Some (program, rest) /\
    match flat_map Fields arguments with
    | [] => program = "sh" /\ rest = []
    | words => program :: rest = words
    end.
Proof.
  unfold shellCommand. rewrite shell_words. cbn [app].
  destruct (flat_map Fields arguments) as [|word words]; cbn.
  - now exists "sh", [].
  - now exists word, words.
Qed.

Lemma run_parse_error_is_help (g : Setup) (osArgs : list string) :
  snd (resolve osArgs) <> None ->
  run g osArgs = HelpRender (path (fst (resolve osArgs))).
Proof.
  rewrite DispatcherFacts.run_unfold.
  destruct (resolve osArgs) as [cli [e|]]; cbn [fst snd].
  - reflexivity.
  - intros H. now contradiction H.
Qed.

(** Every run that ends in a help render, asked for or not, ends the
    process with exit code 1 and without an error line: the help's
    error has an empty message (when it is reported as it is). *)
Theorem help_exits_with_one (TransformError : error -> error) (g : Setup)
    (exec : Handler -> Cli -> HandlerEnd) (osArgs : list string)
    (p : CommandPath) :
  run g osArgs = HelpRender p ->
  TransformError ErrHelp = ErrHelp ->
  process TransformError g exec osArgs
  = Exits [Track "cli.start"; Track "cli.error"; SlogError ErrHelp] 1%Z.
Proof.
  intros Hrun Hid. unfold process. rewrite Hrun.
  unfold exitsWith, main. rewrite Hid. reflexivity.
Qed.

(** An unknown flag after [deploy]: help, exit code 1, no handler. *)
Lemma help_exits_with_one_witness :
  let argv := ["deploy"; "--nope"] in
  let g := mkSetup false None false None in
  run g argv = HelpRender [Root; leaf "deploy" false [] [] RunDeploy] /\
  process (fun e => e) g (fun _ _ => HandlerReturns None) argv
  = Exits [Track "cli.start"; Track "cli.error"; SlogError ErrHelp] 1%Z.
Proof.
  cbv zeta.
  assert (Hrun : run (mkSetup false None false None) ["deploy"; "--nope"]
                 = HelpRender [Root; leaf "deploy" false [] [] RunDeploy]).
  { rewrite run_parse_error_is_help by (vm_compute; discriminate).
    vm_compute. reflexivity. }
  split; [exact Hrun|].
  exact (help_exits_with_one (fun e => e) _ (fun _ _ => HandlerReturns None)
           _ _ Hrun eq_refl).
Defined.

End ProcessMore.

(* ===================================================================== *)
(** * Further properties of the stage resolver *)
(* ===================================================================== *)

Module StageMore.

Import StageFacts.

Lemma lowerByte_not_upper (c : ascii) :
  ~ (65 <= nat_of_ascii (lowerByte c) <= 90)%nat.
Proof. destruct c as [[] [] [] [] [] [] [] []]; vm_compute; lia. Qed.

Lemma lowerBytes_not_upper (s : string) :
  List.Forall (fun c => ~ (65 <= nat_of_ascii c <= 90)%nat)
    (list_ascii_of_string (lowerBytes s)).
Proof.
  induction s as [|c s IH]; cbn [lowerBytes list_ascii_of_string];
    constructor; [apply lowerByte_not_upper | exact IH].
Qed.

(** The guess is never one of the five reserved names, whatever the
    user name, its letter case and the Unicode tables; and the guess
    from an ASCII user name has no letter A-Z left. *)
Theorem guessStage_never_reserved (lower : string -> string)
    (currentUser : option string) :
  ~ In (guessStage lower currentUser)
       ["root"; "admin"; "prod"; "dev"; "production"] /\
  (forall username, currentUser = Some username -> isASCII username = true ->
     List.Forall (fun c => ~ (65 <= nat_of_ascii c <= 90)%nat)
       (list_ascii_of_string (guessStage lower currentUser))).
Proof.
  unfold guessStage. destruct currentUser as [username|].
  - destruct (String.eqb (ToLower lower username) "root" || _ || _ || _ || _) eqn:E.
    + split; [cbn; intuition discriminate|]. intros _ _ _. constructor.
    + split.
      * intros Hin. apply eqb_chain_In in Hin. congruence.
      * intros u [= <-] Hascii. rewrite (ToLower_ascii lower username Hascii).
        apply lowerBytes_not_upper.
  - split; [cbn; intuition discriminate|]. intros u [=].
Qed.

Lemma guessStage_never_reserved_witness :
  isASCII "ProdUser" = true /\
  guessStage id (Some "ProdUser") = "produser" /\
  List.Forall (fun c => ~ (65 <= nat_of_ascii c <= 90)%nat)
    (list_ascii_of_string (guessStage id (Some "ProdUser"))).
Proof.
  split; [reflexivity|]. split; [reflexivity|].
  exact (proj2 (guessStage_never_reserved id (Some "ProdUser"))
           "ProdUser" eq_refl eq_refl).
Defined.

Lemma getStage_cases (lower : string -> string) (cli : Cli) (cfgPath : string)
    (m : Machine) (events : list Event) (m' : Machine) (r : Result) :
  getStage lower cli cfgPath m = (events, m', r) ->
  (Cli_String cli "stage" = None /\ events = [] /\ r = TypePanic) \/
  (exists flag, Cli_String cli "stage" = Some flag /\ flag <> "" /\
     events = [EvLoadDotenv (".env." ++ flag)] /\ m' = m /\
     r = Returned flag None) \/
  (exists persisted, Cli_String cli "stage" = Some "" /\
     LoadPersonalStage m cfgPath = persisted /\ persisted <> "" /\
     events = [EvLoadPersonalStage cfgPath; EvLoadDotenv (".env." ++ persisted)] /\
     m' = m /\ r = Returned persisted None) \/
  (exists prompts, Cli_String cli "stage" = Some "" /\
     LoadPersonalStage m cfgPath = "" /\
     events = [EvLoadPersonalStage cfgPath; EvGuessStage] ++ repeat EvPrompt prompts /\
     markers m' = markers m /\ r = Blocked) \/
  (exists prompts stage, Cli_String cli "stage" = Some "" /\
     LoadPersonalStage m cfgPath = "" /\ stage <> "" /\
     ((events = ([EvLoadPersonalStage cfgPath; EvGuessStage]
                 ++ repeat EvPrompt prompts)
                ++ [EvSetPersonalStage cfgPath stage;
                    EvLoadDotenv (".env." ++ stage)] /\
       markers m' = <[cfgPath := stage]> (markers m) /\
       r = Returned stage None) \/
      (events = ([EvLoadPersonalStage cfgPath; EvGuessStage]
                 ++ repeat EvPrompt prompts)
                ++ [EvSetPersonalStage cfgPath stage] /\
       markers m' = markers m /\
       exists err, r = Returned "" (Some err)))).
Proof.
  unfold getStage.
  destruct (Cli_String cli "stage") as [flag|]; [|intros [= <- <- <-]; now left].
  destruct (String.eqb_spec flag "") as [->|Hflag].
  2:{ intros [= <- <- <-]. right. left. exists flag. auto. }
  destruct (String.eqb_spec (LoadPersonalStage m cfgPath) "") as [Hload|Hload].
  2:{ intros [= <- <- <-]. right. right. left.
      exists (LoadPersonalStage m cfgPath). repeat split; auto. }
  destruct (if String.eqb (guessStage lower (currentUser m)) "" then _ else _)
    as [prompts src] eqn:Hsrc.
  destruct src as [[stage rest]|].
  2:{ intros [= <- <- <-]. right. right. right. left. exists prompts.
      repeat split; auto. }
  assert (Hst : stage <> "").
  { destruct (String.eqb (guessStage lower (currentUser m)) "") eqn:Hg.
    - eapply promptLoop_nonempty. exact Hsrc.
    - injection Hsrc as _ <- _. now apply String.eqb_neq. }
  unfold SetPersonalStage. cbn [markerWritable markers currentUser stdin].
  right. right. right. right. exists prompts, stage.
  split; [reflexivity|]. split; [exact Hload|]. split; [exact Hst|].
  destruct (markerWritable m); injection H as <- <- <-.
  - left. repeat split; reflexivity.
  - right. repeat split; try reflexivity. eexists. reflexivity.
Qed.

(** A stage that [getStage] returns without an error is never empty. *)
Theorem getStage_stage_not_empty (lower : string -> string) (cli : Cli)
    (cfgPath : string) (m m' : Machine) (events : list Event)
    (stage : string) :
  getStage lower cli cfgPath m = (events, m', Returned stage None) ->
  stage <> "".
Proof.
  intros H. apply getStage_cases in H.
  destruct H as [(_ & _ & [=])
    |[(flag & _ & Hne & _ & _ & [= <-])
    |[(persisted & _ & _ & Hne & _ & _ & [= <-])
    |[(prompts & _ & _ & _ & _ & [=])
    |(prompts & st & _ & _ & Hne & [(_ & _ & [= <-])|(_ & _ & err & [=])])]]]];
    assumption.
Qed.

Lemma getStage_stage_not_empty_witness :
  let m := mkMachine ∅ true (Some "Alice") [] in
  getStage id (cliWithStage "") "sst.config.ts" m
  = ([EvLoadPersonalStage "sst.config.ts"; EvGuessStage;
      EvSetPersonalStage "sst.config.ts" "alice"; EvLoadDotenv ".env.alice"],
     mkMachine {["sst.config.ts" := "alice"]} true (Some "Alice") [],
     Returned "alice" None) /\
  "alice" <> "".
Proof.
  cbv zeta.
  assert (H : getStage id (cliWithStage "") "sst.config.ts"
                (mkMachine ∅ true (Some "Alice") [])
              = ([EvLoadPersonalStage "sst.config.ts"; EvGuessStage;
                  EvSetPersonalStage "sst.config.ts" "alice";
                  EvLoadDotenv ".env.alice"],
                 mkMachine {["sst.config.ts" := "alice"]} true (Some "Alice") [],
                 Returned "alice" None))
    by reflexivity.
  split; [exact H|].
  exact (getStage_stage_not_empty _ _ _ _ _ _ _ H).
Defined.

(** [getStage] hands a value to [SetPersonalStage] only for the project
    it was asked about, only when neither [--stage] nor the marker gave
    a stage, and never an empty one. *)
Theorem getStage_persists_only_when_needed (lower : string -> string)
    (cli : Cli) (cfgPath : string)
    (m m' : Machine) (events : list Event) (r : Result)
    (writtenPath written : string) :
  getStage lower cli cfgPath m = (events, m', r) ->
  In (EvSetPersonalStage writtenPath written) events ->
  writtenPath = cfgPath /\ written <> "" /\
  Cli_String cli "stage" = Some "" /\
  LoadPersonalStage m cfgPath = "".
Proof.
  intros H Hin. apply getStage_cases in H.
  destruct H as [(_ & -> & _)
    |[(flag & _ & _ & -> & _)
    |[(persisted & _ & _ & _ & -> & _)
    |[(prompts & _ & _ & -> & _)
    |(prompts & st & Hflag & Hload & Hne & Hcase)]]]].
  - destruct Hin.
  - cbn in Hin. intuition discriminate.
  - cbn in Hin. intuition discriminate.
  - cbn in Hin. destruct Hin as [H|[H|H]]; try discriminate.
    apply repeat_spec in H. discriminate.
  - assert (Hfront : ~ In (EvSetPersonalStage writtenPath written)
                         ([EvLoadPersonalStage cfgPath; EvGuessStage]
                          ++ repeat EvPrompt prompts)).
    { intros H. apply in_app_iff in H as [H|H].
      - cbn in H. intuition discriminate.
      - apply repeat_spec in H. discriminate. }
    destruct Hcase as [(-> & _)|(-> & _)];
      apply in_app_iff in Hin as [H|H]; try (now contradiction Hfront);
      cbn in H; destruct H as [[= <- <-]|H];
      try (now repeat split); intuition discriminate.
Qed.

Lemma getStage_persists_only_when_needed_witness :
  let m := mkMachine ∅ true (Some "Alice") [] in
  let events := [EvLoadPersonalStage "sst.config.ts"; EvGuessStage;
                 EvSetPersonalStage "sst.config.ts" "alice";
                 EvLoadDotenv ".env.alice"] in
  fst (fst (getStage id (cliWithStage "") "sst.config.ts" m)) = events /\
  In (EvSetPersonalStage "sst.config.ts" "alice") events /\
  LoadPersonalStage m "sst.config.ts" = "".
Proof.
  cbv zeta.
  assert (Heq : getStage id (cliWithStage "") "sst.config.ts"
                  (mkMachine ∅ true (Some "Alice") [])
                = ([EvLoadPersonalStage "sst.config.ts"; EvGuessStage;
                    EvSetPersonalStage "sst.config.ts" "alice";
                    EvLoadDotenv ".env.alice"],
                   mkMachine {["sst.config.ts" := "alice"]} true (Some "Alice") [],
                   Returned "alice" None))
    by reflexivity.
  assert (Hin : In (EvSetPersonalStage "sst.config.ts" "alice")
                  [EvLoadPersonalStage "sst.config.ts"; EvGuessStage;
                   EvSetPersonalStage "sst.config.ts" "alice";
                   EvLoadDotenv ".env.alice"])
    by (cbn; tauto).
  split; [now rewrite Heq|]. split; [exact Hin|].
  exact (proj2 (proj2 (proj2 (getStage_persists_only_when_needed
    _ _ _ _ _ _ _ _ _ Heq Hin)))).
Defined.

(** With no [--stage], no marker and no usable user name, [getStage]
    does not return as long as standard input delivers no successfully
    scanned non-empty token, and it writes no marker. *)
Theorem getStage_waits_for_input (lower : string -> string) (cli : Cli)
    (cfgPath : string) (m : Machine) :
  Cli_String cli "stage" = Some "" ->
  LoadPersonalStage m cfgPath = "" ->
  guessStage lower (currentUser m) = "" ->
  Forall (fun r => match r with ScanOk t => t = "" | ScanErr _ => True end)
         (stdin m) ->
  snd (getStage lower cli cfgPath m) = Blocked /\
  markers (snd (fst (getStage lower cli cfgPath m))) = markers m /\
  forall p s,
    ~ In (EvSetPersonalStage p s) (fst (fst (getStage lower cli cfgPath m))).
Proof.
  intros Hflag Hload Hguess Hin. unfold getStage.
  rewrite Hflag. cbn. rewrite Hload, Hguess. cbn.
  pose proof (promptLoop_blocked (stdin m) "" Hin) as Hb.
  destruct (promptLoop "" (stdin m)) as [prompts src]. cbn in Hb. subst src.
  cbn. split; [reflexivity|]. split; [reflexivity|].
  intros p s [H|[H|H]]; try discriminate.
  apply repeat_spec in H. discriminate.
Qed.

Lemma getStage_waits_for_input_witness :
  let m := mkMachine ∅ true (Some "root") [ScanErr None; ScanOk ""] in
  guessStage id (currentUser m) = "" /\
  snd (getStage id (cliWithStage "") "sst.config.ts" m) = Blocked.
Proof.
  cbv zeta. split; [reflexivity|].
  exact (proj1 (getStage_waits_for_input id (cliWithStage "") "sst.config.ts"
    (mkMachine ∅ true (Some "root") [ScanErr None; ScanOk ""])
    eq_refl eq_refl eq_refl ltac:(repeat constructor))).
Defined.

End StageMore.

(* ===================================================================== *)
(** * Further properties of [state edit] and of the argument list *)
(* ===================================================================== *)

Module EditMore.

Import HandlerFacts.

(** In [state edit] with the lock held, [PushState] is called exactly
    when the state was pulled, the editor started and the editor exited
    without error: a failed edit never uploads the state. *)
Theorem stateEdit_pushes_only_after_editor (w : World)
    (store : gmap string string) (app : App) :
  initProject_result w = inr app ->
  Lock_result w = None ->
  In CallPushState (fst (fst (execFn (stateEditRun w) store))) <->
  (exists file, PullState_result w = inr file) /\
  editorStart_result w = None /\ editorWait_result w = None.
Proof.
  intros Hinit Hlock. rewrite (stateEdit_exits w store app Hinit Hlock).
  destruct (PullState_result w) as [e|file].
  { cbn. split; [intuition discriminate|]. intros ([file [=]] & _). }
  destruct (editorStart_result w) as [e|].
  { cbn. split; [intuition discriminate|]. intros (_ & [=] & _). }
  destruct (editorWait_result w) as [e|].
  { cbn. split; [intuition discriminate|]. intros (_ & _ & [=]). }
  cbn. split; [|tauto]. intros _. split; [now exists file | now split].
Qed.

Lemma stateEdit_pushes_only_after_editor_witness :
  let w := mkWorld (inr (mkApp "app" "dev")) None (inr "/tmp/state.json") None
             "nano" None None None None None None in
  initProject_result w = inr (mkApp "app" "dev") /\
  Lock_result w = None /\
  In CallPushState (fst (fst (execFn (stateEditRun w) ∅))).
Proof.
  cbv zeta. split; [reflexivity|]. split; [reflexivity|].
  apply (proj2 (stateEdit_pushes_only_after_editor
    (mkWorld (inr (mkApp "app" "dev")) None (inr "/tmp/state.json") None
       "nano" None None None None None None)
    ∅ (mkApp "app" "dev") eq_refl eq_refl)).
  split; [now exists "/tmp/state.json" | now split].
Defined.

(** When the lock cannot be taken, [state edit] stops there: its calls
    are the project initialisation, the lock attempt and the deferred
    project cleanup, in this order and nothing else, and it returns
    "Could not lock state"; so it neither unlocks nor pulls, edits or
    pushes the state. *)
Theorem stateEdit_without_lock (w : World) (store : gmap string string)
    (app : App) (e : error) :
  initProject_result w = inr app ->
  Lock_result w = Some e ->
  let trace := fst (fst (execFn (stateEditRun w) store)) in
  trace = [CallInitProject; CallLock; CallCleanup] /\
  snd (execFn (stateEditRun w) store)
  = Some (ReadableError (Some e) "Could not lock state") /\
  In CallCleanup trace /\
  ~ In CallUnlock trace /\ ~ In CallPullState trace /\
  ~ In CallPushState trace /\
  (forall editor file, ~ In (CallEditorStart editor file) trace).
Proof.
  intros Hinit Hlock trace. subst trace.
  rewrite (stateEdit_lock_failed w store app e Hinit Hlock). cbn.
  repeat split; intuition discriminate.
Qed.

Lemma stateEdit_without_lock_witness :
  let w := mkWorld (inr (mkApp "app" "dev")) (Some (OtherError "locked"))
             (inr "/tmp/state.json") None "" None None None None None None in
  initProject_result w = inr (mkApp "app" "dev") /\
  Lock_result w = Some (OtherError "locked") /\
  fst (fst (execFn (stateEditRun w) ∅))
  = [CallInitProject; CallLock; CallCleanup].
Proof.
  cbv zeta. split; [reflexivity|]. split; [reflexivity|].
  exact (proj1 (stateEdit_without_lock
    (mkWorld (inr (mkApp "app" "dev")) (Some (OtherError "locked"))
       (inr "/tmp/state.json") None "" None None None None None None)
    ∅ (mkApp "app" "dev") (OtherError "locked") eq_refl eq_refl)).
Defined.

Lemma Join_length (elems : list string) (sep : string) :
  String.length (Join elems sep)
  = (list_sum (map String.length elems)
     + String.length sep * (length elems - 1))%nat.
Proof.
  induction elems as [|x rest IH]; [cbn; lia|].
  destruct rest as [|y rest'].
  - cbn. lia.
  - change (Join (x :: y :: rest') sep)
      with (x ++ sep ++ Join (y :: rest') sep)%string.
    rewrite !HelpFacts.length_append, IH. cbn [map length].
    unfold list_sum. cbn [fold_right].
    replace (S (S (length rest')) - 1)%nat with (S (S (length rest') - 1)) by lia.
    rewrite Nat.mul_succ_r. lia.
Qed.

Lemma append_empty_r (t : string) : (t ++ "")%string = t.
Proof.
  induction t as [|c t IH]; [reflexivity|].
  change (String c (t ++ "") = String c t). now rewrite IH.
Qed.

Lemma ArgumentList_String_cons (arg : Argument) (rest : list Argument) :
  ArgumentList_String (arg :: rest)
  = (renderArgument arg
     ++ match rest with
        | [] => ""
        | _ :: _ => " " ++ ArgumentList_String rest
        end)%string.
Proof.
  unfold ArgumentList_String. destruct rest as [|arg' rest']; cbn [map Join].
  - symmetry. apply append_empty_r.
  - reflexivity.
Qed.

(** The text of an argument list: the empty list renders as the empty
    text; otherwise the first argument comes with its name in angle
    brackets when it is required and in square brackets when it is
    optional, followed, when more arguments follow, by one space and
    their text.  Its byte length is therefore the sum of the name
    lengths plus two per argument plus the number of arguments less
    one. *)
Theorem ArgumentList_String_shape (a : list Argument) :
  match a with
  | [] => ArgumentList_String a = ""
  | arg :: rest =>
      ArgumentList_String a
      = ((if arg_Required arg then "<" ++ arg_Name arg ++ ">"
          else "[" ++ arg_Name arg ++ "]")
         ++ match rest with
            | [] => ""
            | _ :: _ => " " ++ ArgumentList_String rest
            end)%string
  end /\
  String.length (ArgumentList_String a)
  = (list_sum (map (fun arg => String.length (arg_Name arg) + 2) a)
     + (length a - 1))%nat.
Proof.
  split.
  - destruct a as [|arg rest]; [reflexivity|].
    rewrite ArgumentList_String_cons. unfold renderArgument.
    now destruct (arg_Required arg).
  - unfold ArgumentList_String. rewrite Join_length, length_map, map_map.
    cbn [String.length]. f_equal; [|lia].
    f_equal. apply map_ext. intros arg. unfold renderArgument.
    destruct (arg_Required arg); rewrite !HelpFacts.length_append; cbn; lia.
Qed.

End EditMore.
